(** * Tractive sandbox backend: trail analytics and the Tractive API client

    A shallow embedding of
    - [GoogleMapsService] (backend/src/services/googleMapsService.ts):
      [calculateTrailStats], [calculateHaversineDistance], [toRadians] and
      the five calls to the mapping service,
    - [TractiveService] (backend/src/services/tractiveService.ts): the axios
      instance with its response interceptor, [authenticate],
      [isSessionValid], [ensureAuthenticated] and the tracker operations, and
    - the login, LED and buzzer route handlers (backend/src/routes).

    JavaScript numbers are kept behind the interface [JsNumber]; it has two
    instances, binary64 floats (executable) and the real numbers (exact
    arithmetic).  The properties are stated for every instance, for
    binary64, or over the reals, that is, in exact arithmetic. *)

From Stdlib Require Import ZArith List String Bool Lia.
From Stdlib Require Import Reals Lra Psatz.
From Stdlib Require Floats.
Import ListNotations.

Set Implicit Arguments.

(* ================================================================== *)
(** * JavaScript numbers *)

(** The operations on [number] that the two services use. *)
Class JsNumber (num : Type) : Type := {
  lit : Z -> num;                    (* an integer literal *)
  add : num -> num -> num;
  sub : num -> num -> num;
  mul : num -> num -> num;
  div : num -> num -> num;
  gt : num -> num -> bool;           (* a > b *)
  truthy : num -> bool;              (* ToBoolean: false on 0 and NaN *)
  Math_abs : num -> num
}.

(** The functions of [Math] behind the haversine formula.  ECMAScript leaves
    [sin], [cos] and [atan2] implementation-approximated, so binary64 has no
    one instance of this class: the theorems about them are stated for every
    instance, for every binary64 instance that obeys the rules ECMAScript
    does fix, or in exact arithmetic. *)
Class JsMath (num : Type) : Type := {
  Math_PI : num;
  Math_sin : num -> num;
  Math_cos : num -> num;
  Math_sqrt : num -> num;
  Math_atan2 : num -> num -> num
}.

Declare Scope js_scope.
Delimit Scope js_scope with js.
Infix "+" := add : js_scope.
Infix "-" := sub : js_scope.
Infix "*" := mul : js_scope.
Infix "/" := div : js_scope.
Infix ">?" := gt (at level 70, no associativity) : js_scope.

(** ** Instance: IEEE 754 binary64 *)

Definition float_of_Z (z : Z) : PrimFloat.float :=
  match z with
  | Z0 => PrimFloat.zero
  | Zpos _ => PrimFloat.of_uint63 (Uint63.of_Z z)
  | Zneg _ => PrimFloat.opp (PrimFloat.of_uint63 (Uint63.of_Z (Z.opp z)))
  end.

#[export] Instance float_JsNumber : JsNumber PrimFloat.float := {|
  lit := float_of_Z;
  add := PrimFloat.add;
  sub := PrimFloat.sub;
  mul := PrimFloat.mul;
  div := PrimFloat.div;
  gt := fun a b => PrimFloat.ltb b a;
  truthy := fun a => negb (PrimFloat.eqb a PrimFloat.zero || PrimFloat.is_nan a);
  Math_abs := PrimFloat.abs
|}.

(** ** Instance: exact real arithmetic *)

(** [Math.atan2 (y, x)] on the reals, with the values ECMAScript gives on
    the axes. *)
Definition Ratan2 (y x : R) : R :=
  if Rlt_dec 0 x then atan (y / x)
  else if Rlt_dec x 0 then
    (if Rlt_dec y 0 then atan (y / x) - PI else atan (y / x) + PI)%R
  else if Rlt_dec 0 y then (PI / 2)%R
  else if Rlt_dec y 0 then (- (PI / 2))%R
  else 0%R.

#[export] Instance R_JsNumber : JsNumber R := {|
  lit := IZR;
  add := Rplus;
  sub := Rminus;
  mul := Rmult;
  div := Rdiv;
  gt := fun a b => if Rlt_dec b a then true else false;
  truthy := fun a => if Req_dec_T a 0 then false else true;
  Math_abs := Rabs
|}.

#[export] Instance R_JsMath : JsMath R := {|
  Math_PI := PI;
  Math_sin := sin;
  Math_cos := cos;
  Math_sqrt := sqrt;
  Math_atan2 := Ratan2
|}.

(* ================================================================== *)
(** * Data model (backend/src/types) *)

Section Types.
Variable num : Type.

Record Position : Type := {
  tracker_id : string;
  timestamp : string;
  latitude : num;
  longitude : num;
  speed : num;
  accuracy : num;
  altitude : option num;
  sensor_used : string;
  pos_status : num;
  address : option string
}.

Record LatLng : Type := { lat : num; lng : num }.

Record ElevationPoint : Type := {
  elevation : num;
  location : LatLng;
  resolution : num
}.

Record TrailStats : Type := {
  distance : num;
  duration : num;
  avgSpeed : num;
  elevationGain : num;
  elevationLoss : num;
  avgGrade : num
}.
End Types.

Arguments Build_Position {num}.
Arguments Build_LatLng {num}.
Arguments Build_ElevationPoint {num}.
Arguments Build_TrailStats {num}.

(* ================================================================== *)
(** * Trail analytics (GoogleMapsService) *)

(** [for (let i = start; ...; i++) body], run for [n] iterations.  The body
    fails ([None]) where the JavaScript would throw, e.g. on a property read
    of [undefined]. *)
Fixpoint forLoop {S : Type} (n i : nat) (body : nat -> S -> option S) (s : S)
  : option S :=
  match n with
  | O => Some s
  | Datatypes.S n' =>
      match body i s with
      | Some s' => forLoop n' (Datatypes.S i) body s'
      | None => None
      end
  end.

Section TrailAnalytics.
Context {num : Type} {JN : JsNumber num} {JM : JsMath num}.

(** [new Date(s).getTime()]: the host's date parser. *)
Variable Date_getTime : string -> num.

Local Open Scope js_scope.

Definition toRadians (degrees : num) : num :=
  degrees * (Math_PI / lit 180).

Definition calculateHaversineDistance (lat1 lng1 lat2 lng2 : num) : num :=
  let R := lit 6371000 in
  let dLat := toRadians (lat2 - lat1) in
  let dLng := toRadians (lng2 - lng1) in
  let a :=
    Math_sin (dLat / lit 2) * Math_sin (dLat / lit 2) +
    Math_cos (toRadians lat1) * Math_cos (toRadians lat2) *
    Math_sin (dLng / lit 2) * Math_sin (dLng / lit 2) in
  let c := lit 2 * Math_atan2 (Math_sqrt a) (Math_sqrt (lit 1 - a)) in
  R * c.

(** Body of the distance loop: [positions[i - 1]] and [positions[i]]. *)
Definition distanceStep (positions : list (Position num)) (i : nat)
    (totalDistance : num) : option num :=
  match nth_error positions (i - 1), nth_error positions i with
  | Some p, Some q =>
      Some (totalDistance +
            calculateHaversineDistance (latitude p) (longitude p)
                                       (latitude q) (longitude q))
  | _, _ => None
  end.

(** Body of the elevation loop; the state is (elevationGain, elevationLoss). *)
Definition elevationStep (elevations : list (ElevationPoint num)) (i : nat)
    (gl : num * num) : option (num * num) :=
  match nth_error elevations i, nth_error elevations (i - 1) with
  | Some e, Some e' =>
      let elevDiff := elevation e - elevation e' in
      if elevDiff >? lit 0
      then Some (fst gl + elevDiff, snd gl)
      else Some (fst gl, snd gl + Math_abs elevDiff)
  | _, _ => None
  end.

Definition zeroStats : TrailStats num :=
  Build_TrailStats (lit 0) (lit 0) (lit 0) (lit 0) (lit 0) (lit 0).

(** [None] stands for a thrown exception. *)
Definition calculateTrailStats (positions : list (Position num))
    (elevations : option (list (ElevationPoint num)))
  : option (TrailStats num) :=
  if (List.length positions <? 2)%nat then Some zeroStats
  else
    match forLoop (List.length positions - 1) 1 (distanceStep positions) (lit 0) with
    | None => None
    | Some totalDistance =>
      match nth_error positions 0,
            nth_error positions (List.length positions - 1) with
      | Some first, Some last =>
        let startTime := Date_getTime (timestamp first) in
        let endTime := Date_getTime (timestamp last) in
        let duration := (endTime - startTime) / lit 1000 in
        let avgSpeed :=
          if duration >? lit 0 then totalDistance / duration else lit 0 in
        let gainLoss :=
          match elevations with
          | Some els =>
              if (1 <? List.length els)%nat
              then forLoop (List.length els - 1) 1 (elevationStep els)
                           (lit 0, lit 0)
              else Some (lit 0, lit 0)
          | None => Some (lit 0, lit 0)
          end in
        match gainLoss with
        | None => None
        | Some (elevationGain, elevationLoss) =>
          let avgGrade :=
            if totalDistance >? lit 0
            then ((elevationGain - elevationLoss) / totalDistance) * lit 100
            else lit 0 in
          Some (Build_TrailStats totalDistance duration avgSpeed
                                 elevationGain elevationLoss avgGrade)
        end
      | _, _ => None
      end
    end.
End TrailAnalytics.


(* ================================================================== *)
(** * Tractive API client (TractiveService) *)

(** ** Upstream payloads, in the shape the service reads them *)

Module Raw.
Section Raw.
Variable num : Type.

Record Login : Type := {
  access_token : string;           (* empty when absent *)
  user_id : string;
  expires_in : Z
}.

Record Tracker : Type := {
  _id : string;
  details_name : option string;    (* details?.name *)
  pet_id : string;
  model_number : option string;
  fw_version : option string;
  battery_level : option num;
  charging_state : option string;
  capabilities : option (list string)
}.

Record Sample : Type := {
  time : string;
  lat : num;
  lng : num;
  speed : option num;
  pos_uncertainty : option num;
  altitude : option num;
  sensor_used : option string;
  pos_status : option num
}.

Record Shape : Type := {
  type : string;
  center : option (LatLng num);
  radius : option num;
  coordinates : option (list (LatLng num))
}.

Record Fence : Type := {
  fence_id : string;               (* _id *)
  name : string;
  shape : option Shape;
  active : bool
}.
End Raw.
End Raw.

Section Payload.
Variable num : Type.

Record Tracker : Type := {
  tk_id : string;                  (* id *)
  tk_name : string;                (* name *)
  tk_pet_id : string;
  tk_model : string;
  tk_firmware : string;
  tk_battery_level : num;
  tk_battery_state : string;
  tk_capabilities : list string
}.

Record Geofence : Type := {
  gf_id : string;                  (* id *)
  gf_name : string;                (* name *)
  gf_type : string;                (* type *)
  gf_active : bool;
  gf_center : option (LatLng num);
  gf_radius : option num;
  gf_coordinates : option (list (LatLng num))
}.

(** [response.data], in the shapes the service reads.  [DNull] is an absent
    body ([null] or [undefined]); [DOther] is an object that is neither an
    array nor a login record.  The three arrays are those of the three
    endpoints.  From the elements of an array of another endpoint JavaScript
    builds records with [undefined] fields, which the typed records below do
    not hold: the definitions answer such an array as they answer [DOther],
    and what is stated of the value an operation builds from a body is
    stated for [DNull], [DOther], [DLogin] and the array of the operation's
    own endpoint only. *)
Inductive Data : Type :=
| DNull
| DOther
| DLogin (l : Raw.Login)
| DTrackers (l : list (Raw.Tracker num))
| DPositions (l : list (Raw.Sample num))
| DGeofences (l : list (Raw.Fence num)).

Record Response : Type := { status : Z; data : Data }.

(** What the network gives back for one request. *)
Inductive Reply : Type :=
| Answer (status : Z) (data : Data)
| NoAnswer.                         (* refused, reset, timed out *)
End Payload.

Arguments DNull {num}.
Arguments DOther {num}.
Arguments DLogin {num}.
Arguments NoAnswer {num}.

Inductive Method : Type := GET | POST.

(** A request body: none, the credentials, or [{ active }]. *)
Inductive Body : Type :=
| NoBody
| Credentials (email password : string)
| LiveTracking (active : bool).

(** A [Date]: its time value, in milliseconds since the epoch, or an Invalid
    Date (time value [NaN]), as [new Date(s)] gives for a string that is not a
    date. *)
Inductive JsDate : Type :=
| DateAt (time : Z)
| InvalidDate.

(** [date.toISOString()], which throws a [RangeError] on an Invalid Date
    ([None]).  The rendering is kept as the time value it renders. *)
Definition toISOString (date : JsDate) : option Z :=
  match date with
  | DateAt time => Some time
  | InvalidDate => None
  end.

(** The query parameters of a positions request.  The two dates are kept as
    time values (milliseconds); the code sends their ISO renderings. *)
Record PositionsParams : Type := {
  time_from : Z;
  time_to : Z;
  format : string
}.

(** An axios request configuration. *)
Record Request : Type := {
  method : Method;
  url : string;
  params : option PositionsParams;
  body : Body;
  Authorization : option string     (* headers.Authorization *)
}.

Section Errors.
Variable num : Type.

(** What a promise rejects with: an axios error ([error.response],
    [error.config]) or [new Error(message)]. *)
Inductive JsError : Type :=
| AxiosError (response : option (Response num)) (config : option Request)
| Error (message : string).

(** How an awaited promise ends: [Pending] is a promise that has not settled
    within the chain of requests the fuel allows (see [request]). *)
Inductive Settled (A : Type) : Type :=
| Resolved (a : A)
| Rejected (e : JsError)
| Pending.

(** The private fields of a [TractiveService], with the default
    [Authorization] header of its axios instance. *)
Record Service : Type := {
  accessToken : option string;
  userId : option string;
  sessionExpiry : option Z;
  defaultAuthorization : option string
}.

(** A freshly constructed service. *)
Definition newService : Service :=
  {| accessToken := None; userId := None; sessionExpiry := None;
     defaultAuthorization := None |}.

(** The service together with the requests sent so far, oldest first. *)
Record State : Type := {
  service : Service;
  sent : list Request
}.

Definition Async (A : Type) : Type := State -> Settled A * State.

Definition ret {A : Type} (a : A) : Async A := fun st => (Resolved a, st).

Definition throw {A : Type} (e : JsError) : Async A :=
  fun st => (Rejected A e, st).

Definition bind {A B : Type} (m : Async A) (k : A -> Async B) : Async B :=
  fun st =>
    match m st with
    | (Resolved a, st') => k a st'
    | (Rejected _ e, st') => (Rejected B e, st')
    | (Pending _, st') => (Pending B, st')
    end.

(** [try { m } catch (error) { handler error }] *)
Definition tryCatch {A : Type} (m : Async A) (handler : JsError -> Async A)
  : Async A :=
  fun st =>
    match m st with
    | (Rejected _ e, st') => handler e st'
    | r => r
    end.

Definition getService : Async Service := fun st => (Resolved (service st), st).

Definition setService (s : Service) : Async unit :=
  fun st => (Resolved tt, {| service := s; sent := sent st |}).
End Errors.

Arguments Resolved {num A}.
Arguments Rejected {num A}.
Arguments Pending {num A}.
Arguments Error {num}.
Arguments ret {num A}.
Arguments throw {num A}.
Arguments bind {num A B}.
Arguments tryCatch {num A}.
Arguments getService {num}.
Arguments setService {num}.

Declare Scope async_scope.
Delimit Scope async_scope with async.
Notation "x <- m ;; k" := (bind m (fun x => k))
  (at level 100, m at next level, right associativity) : async_scope.
Notation "m ;;; k" := (bind m (fun _ => k))
  (at level 100, right associativity) : async_scope.

(** ** The service *)

Section TractiveService.
Context {num : Type} {JN : JsNumber num}.

(** [config.tractive.email] and [config.tractive.password]. *)
Variable email password : string.

(** [Date.now()]: the milliseconds elapsed since the epoch, a natural
    number; the clock is read as fixed during one call. *)
Variable now : N.

(** The network: the reply to the [n]-th request sent (counting from 0). *)
Variable upstream : nat -> Request -> Reply num.

Local Open Scope string_scope.
Local Open Scope async_scope.

(** ToBoolean on [string | null]. *)
Definition truthyString (s : option string) : bool :=
  match s with
  | Some s => negb (String.eqb s "")
  | None => false
  end.

(** Template interpolation of [string | null]. *)
Definition interpolate (s : option string) : string :=
  match s with
  | Some s => s
  | None => "null"
  end.

(** [x || d] on an optional number and on an optional string. *)
Definition orNumber (x : option num) (d : num) : num :=
  match x with
  | Some v => if truthy v then v else d
  | None => d
  end.

Definition orString (x : option string) (d : string) : string :=
  if truthyString x then interpolate x else d.

(** axios' default [validateStatus]. *)
Definition validateStatus (status : Z) : bool :=
  ((200 <=? status) && (status <? 300))%Z.

(** [error.response?.status === 401] *)
Definition isUnauthorized (error : JsError num) : bool :=
  match error with
  | AxiosError (Some response) _ => (status response =? 401)%Z
  | _ => false
  end.

Definition errorConfig (error : JsError num) : option Request :=
  match error with
  | AxiosError _ config => config
  | Error _ => None
  end.

(** The request as sent: the instance's default [Authorization] header is
    used unless the configuration carries its own. *)
Definition withDefaults (s : Service) (config : Request) : Request :=
  {| method := method config;
     url := url config;
     params := params config;
     body := body config;
     Authorization := match Authorization config with
                      | Some a => Some a
                      | None => defaultAuthorization s
                      end |}.

Definition setAuthorization (config : Request) (a : string) : Request :=
  {| method := method config;
     url := url config;
     params := params config;
     body := body config;
     Authorization := Some a |}.

(** The adapter: sends the request and settles with the response, or with
    an axios error when there is no reply or the status is refused. *)
Definition dispatch (config : Request) : Async num (Response num) :=
  fun st =>
    let sentConfig := withDefaults (service st) config in
    let st' := {| service := service st; sent := sent st ++ [sentConfig] |} in
    match upstream (List.length (sent st)) sentConfig with
    | Answer status data =>
        let response := {| status := status; data := data |} in
        if validateStatus status then (Resolved response, st')
        else (Rejected (AxiosError (Some response) (Some sentConfig)), st')
    | NoAnswer => (Rejected (AxiosError None (Some sentConfig)), st')
    end.

Definition loginRequest : Request :=
  {| method := POST;
     url := "/auth/login";
     params := None;
     body := Credentials email password;
     Authorization := None |}.

(** [authenticate], over the instance's [post]. *)
Definition authenticateWith (post : Request -> Async num (Response num))
  : Async num bool :=
  tryCatch
    (response <- post loginRequest ;;
     match data response with
     | DLogin l =>
         if truthyString (Some (Raw.access_token l)) then
           setService
             {| accessToken := Some (Raw.access_token l);
                userId := Some (Raw.user_id l);
                sessionExpiry :=
                  Some (Z.of_N now + Raw.expires_in l * 1000)%Z;
                defaultAuthorization :=
                  Some ("Bearer " ++ Raw.access_token l) |} ;;;
           ret true
         else ret false
     | DNull => throw (Error "TypeError")
     | _ => ret false
     end)
    (fun _ => ret false).

(** The response interceptor's rejection handler, over the instance's
    [request]. *)
Definition onRejected (request : Request -> Async num (Response num))
    (error : JsError num) : Async num (Response num) :=
  s <- getService ;;
  if isUnauthorized error && truthyString (accessToken s) then
    _ <- authenticateWith request ;;
    match errorConfig error with
    | Some config =>
        s' <- getService ;;
        request
          (setAuthorization config ("Bearer " ++ interpolate (accessToken s')))
    | None => throw error
    end
  else throw error.

(** [axiosInstance.request]: the adapter followed by the interceptor.  The
    retry inside the interceptor goes through the same instance; [fuel]
    bounds how many requests may be chained that way. *)
Fixpoint request (fuel : nat) (config : Request)
  : Async num (Response num) :=
  match fuel with
  | O => fun st => (Pending, st)
  | S fuel' =>
      tryCatch (dispatch config) (onRejected (request fuel'))
  end.

Definition authenticate (fuel : nat) : Async num bool :=
  authenticateWith (request fuel).

Definition isSessionValid (s : Service) : bool :=
  truthyString (accessToken s) &&
  match sessionExpiry s with
  | Some expiry => negb (expiry =? 0)%Z && (Z.of_N now <? expiry)%Z
  | None => false
  end.

Definition ensureAuthenticated (fuel : nat) : Async num unit :=
  s <- getService ;;
  if negb (isSessionValid s) then
    success <- authenticate fuel ;;
    if negb success
    then throw (Error "Failed to authenticate with Tractive API")
    else ret tt
  else ret tt.

Definition get (url : string) (params : option PositionsParams) : Request :=
  {| method := GET; url := url; params := params; body := NoBody;
     Authorization := None |}.

Definition post (url : string) (body : Body) : Request :=
  {| method := POST; url := url; params := None; body := body;
     Authorization := None |}.

Definition toTracker (tracker : Raw.Tracker num) : Tracker num :=
  {| tk_id := Raw._id tracker;
     tk_name := orString (Raw.details_name tracker)
                         ("Tracker " ++ Raw._id tracker);
     tk_pet_id := Raw.pet_id tracker;
     tk_model := orString (Raw.model_number tracker) "Unknown";
     tk_firmware := orString (Raw.fw_version tracker) "Unknown";
     tk_battery_level := orNumber (Raw.battery_level tracker) (lit 0);
     tk_battery_state := orString (Raw.charging_state tracker) "unknown";
     tk_capabilities := match Raw.capabilities tracker with
                        | Some c => c
                        | None => []
                        end |}.

Definition toPosition (trackerId : string) (pos : Raw.Sample num)
  : Position num :=
  {| tracker_id := trackerId;
     timestamp := Raw.time pos;
     latitude := Raw.lat pos;
     longitude := Raw.lng pos;
     speed := orNumber (Raw.speed pos) (lit 0);
     accuracy := orNumber (Raw.pos_uncertainty pos) (lit 0);
     altitude := Raw.altitude pos;
     sensor_used := orString (Raw.sensor_used pos) "unknown";
     pos_status := orNumber (Raw.pos_status pos) (lit 0);
     address := None |}.

(** [None] where [fence.shape.type] would throw. *)
Definition toGeofence (fence : Raw.Fence num) : option (Geofence num) :=
  match Raw.shape fence with
  | Some shape =>
      Some {| gf_id := Raw.fence_id fence;
              gf_name := Raw.name fence;
              gf_type := Raw.type shape;
              gf_active := Raw.active fence;
              gf_center := Raw.center shape;
              gf_radius := Raw.radius shape;
              gf_coordinates := Raw.coordinates shape |}
  | None => None
  end.

Fixpoint mapThrowing {A B : Type} (f : A -> option B) (l : list A)
  : option (list B) :=
  match l with
  | [] => Some []
  | a :: l' =>
      match f a with
      | Some b => option_map (cons b) (mapThrowing f l')
      | None => None
      end
  end.

Definition getTrackers (fuel : nat) : Async num (list (Tracker num)) :=
  ensureAuthenticated fuel ;;;
  tryCatch
    (s <- getService ;;
     response <- request fuel
       (get ("/user/" ++ interpolate (userId s) ++ "/trackers") None) ;;
     match data response with
     | DTrackers l => ret (map toTracker l)
     | _ => throw (Error "TypeError")
     end)
    (fun _ => throw (Error "Failed to fetch trackers")).

Definition getLatestPosition (fuel : nat) (trackerId : string)
  : Async num (option (Position num)) :=
  ensureAuthenticated fuel ;;;
  tryCatch
    (response <- request fuel
       (get ("/tracker/" ++ trackerId ++ "/positions")
            (Some {| time_from := Z.of_N now - 24 * 60 * 60 * 1000;
                     time_to := Z.of_N now;
                     format := "json_segments" |})) ;;
     match data response with
     | DPositions positions =>
         match nth_error positions (List.length positions - 1) with
         | Some latest => ret (Some (toPosition trackerId latest))
         | None => ret None
         end
     | _ => ret None
     end)
    (fun _ => throw (Error "Failed to fetch latest position")).

(** The two [toISOString] calls are evaluated, inside the [try], before the
    request is made. *)
Definition getPositionHistory (fuel : nat) (trackerId : string)
    (from to : JsDate) : Async num (list (Position num)) :=
  ensureAuthenticated fuel ;;;
  tryCatch
    (match toISOString from, toISOString to with
     | Some time_from, Some time_to =>
         response <- request fuel
           (get ("/tracker/" ++ trackerId ++ "/positions")
                (Some {| time_from := time_from;
                         time_to := time_to;
                         format := "json_segments" |})) ;;
         match data response with
         | DPositions positions => ret (map (toPosition trackerId) positions)
         | DNull => ret []
         | _ => throw (Error "TypeError")
         end
     | _, _ => throw (Error "RangeError")
     end)
    (fun _ => throw (Error "Failed to fetch position history")).

Definition getGeofences (fuel : nat) (trackerId : string)
  : Async num (list (Geofence num)) :=
  ensureAuthenticated fuel ;;;
  tryCatch
    (response <- request fuel
       (get ("/tracker/" ++ trackerId ++ "/geofences") None) ;;
     match data response with
     | DGeofences l =>
         match mapThrowing toGeofence l with
         | Some fences => ret fences
         | None => throw (Error "TypeError")
         end
     | _ => throw (Error "TypeError")
     end)
    (fun _ => throw (Error "Failed to fetch geofences")).

Definition toggleLiveTracking (fuel : nat) (trackerId : string) (active : bool)
  : Async num bool :=
  ensureAuthenticated fuel ;;;
  tryCatch
    (response <- request fuel
       (post ("/tracker/" ++ trackerId ++ "/live_tracking")
             (LiveTracking active)) ;;
     ret (status response =? 200)%Z)
    (fun _ => throw (Error "Failed to toggle live tracking")).

Definition triggerLED (fuel : nat) (trackerId : string) : Async num bool :=
  ensureAuthenticated fuel ;;;
  tryCatch
    (response <- request fuel (post ("/tracker/" ++ trackerId ++ "/led") NoBody) ;;
     ret (status response =? 200)%Z)
    (fun _ => throw (Error "Failed to trigger LED")).

Definition triggerBuzzer (fuel : nat) (trackerId : string) : Async num bool :=
  ensureAuthenticated fuel ;;;
  tryCatch
    (response <- request fuel
       (post ("/tracker/" ++ trackerId ++ "/buzzer") NoBody) ;;
     ret (status response =? 200)%Z)
    (fun _ => throw (Error "Failed to trigger buzzer")).
End TractiveService.

(* ================================================================== *)
(** * Mapping service client (GoogleMapsService) *)

Module Google.

(** [config.google]. *)
Record Config : Type := {
  apiKey : string;
  enableGeocoding : bool;
  enableDirections : bool;
  enablePlaces : bool;
  enableElevation : bool
}.

Section Model.
Context {num : Type}.

Record TextValue : Type := { text : string; value : num }.

Record DistanceMatrixResult : Type := {
  distance : TextValue;
  duration : TextValue;
  status : string
}.

Record Place : Type := {
  place_id : string;
  name : string;
  types : list string;
  location : LatLng num;
  rating : option num;
  vicinity : option string
}.

(** Upstream records, in the shape the service reads them. *)
Record GeocodeResult : Type := { formatted_address : string }.

Record Row : Type := { elements : option (list DistanceMatrixResult) }.

Record RawPlace : Type := {
  raw_place_id : string;
  raw_name : string;
  raw_types : list string;
  geometry : option (LatLng num);       (* geometry.location *)
  raw_rating : option num;
  raw_vicinity : option string
}.

Record RawElevation : Type := {
  raw_elevation : num;
  raw_location : option (LatLng num);
  raw_resolution : num
}.

(** [response.data].  [NoBody] is [null] or [undefined]; [Other] is an object
    with neither [results] nor [rows]; the other shapes carry that array.  A
    method handed the array of another endpoint is treated as handed
    [Other]. *)
Inductive Data : Type :=
| NoBody
| Other
| Geocode (results : list GeocodeResult)
| Matrix (rows : list Row)
| Places (results : list RawPlace)
| Elevations (results : list RawElevation).

Inductive Reply : Type :=
| Answer (code : Z) (data : Data)
| NoAnswer.

(** The query parameters, by endpoint.  Coordinates and the radius are kept
    as numbers; the code sends their renderings. *)
Inductive Params : Type :=
| GeocodeParams (latlng : LatLng num) (key : string)
| DistanceMatrixParams (origins destinations : list (LatLng num))
                       (mode units key : string)
| NearbyParams (center : LatLng num) (radius : num) (type key : string)
| ElevationParams (locations : list (LatLng num)) (key : string)
| DirectionsParams (origin destination : LatLng num) (mode key : string).

Record Request : Type := { path : string; params : Params }.

Inductive JsError : Type :=
| AxiosError (code : option Z)
| TypeError.

Inductive Settled (A : Type) : Type :=
| Resolved (a : A)
| Rejected (e : JsError).

(** An awaited call: from the requests sent so far to its outcome and the
    requests sent after it. *)
Definition Async (A : Type) : Type := list Request -> Settled A * list Request.

Definition ret {A : Type} (a : A) : Async A := fun log => (Resolved a, log).

Definition throw {A : Type} (e : JsError) : Async A :=
  fun log => (Rejected A e, log).

Definition bind {A B : Type} (m : Async A) (k : A -> Async B) : Async B :=
  fun log =>
    match m log with
    | (Resolved a, log') => k a log'
    | (Rejected _ e, log') => (Rejected B e, log')
    end.

Definition tryCatch {A : Type} (m : Async A) (handler : JsError -> Async A)
  : Async A :=
  fun log =>
    match m log with
    | (Rejected _ e, log') => handler e log'
    | r => r
    end.

Variable config : Config.

(** The network: the reply to the [n]-th request sent (counting from 0). *)
Variable upstream : nat -> Request -> Reply.

(** [(await this.axiosInstance.get(path, { params })).data]; this instance
    has no interceptor. *)
Definition get (path : string) (params : Params) : Async Data :=
  fun log =>
    let request := {| path := path; params := params |} in
    let log' := log ++ [request] in
    match upstream (List.length log) request with
    | Answer code data =>
        if validateStatus code then (Resolved data, log')
        else (Rejected Data (AxiosError (Some code)), log')
    | NoAnswer => (Rejected Data (AxiosError None), log')
    end.

(** [!config.google.enableX || !config.google.apiKey] *)
Definition switchedOff (enabled : bool) : bool :=
  negb enabled || negb (truthyString (Some (apiKey config))).

Definition reverseGeocode (lat lng : num) : Async (option string) :=
  if switchedOff (enableGeocoding config) then ret None
  else
    tryCatch
      (bind (get "/geocode/json"
                 (GeocodeParams {| lat := lat; lng := lng |} (apiKey config)))
            (fun data =>
               match data with
               | NoBody => throw TypeError
               | Geocode (result :: _) =>
                   ret (Some (formatted_address result))
               | _ => ret None
               end))
      (fun _ => ret None).

Definition getDistanceMatrix (origins destinations : list (LatLng num))
    (mode : string) : Async (list DistanceMatrixResult) :=
  if switchedOff (enableDirections config) then ret []
  else
    tryCatch
      (bind (get "/distancematrix/json"
                 (DistanceMatrixParams origins destinations mode "metric"
                                       (apiKey config)))
            (fun data =>
               match data with
               | NoBody => throw TypeError
               | Matrix (row :: _) =>
                   match elements row with
                   | Some elements =>
                       ret (filter
                              (fun element =>
                                 String.eqb (status element) "OK")
                              elements)
                   | None => throw TypeError
                   end
               | _ => ret []
               end))
      (fun _ => ret []).

(** [None] where [place.geometry.location] would throw. *)
Definition toPlace (place : RawPlace) : option Place :=
  match geometry place with
  | Some location =>
      Some {| place_id := raw_place_id place;
              name := raw_name place;
              types := raw_types place;
              location := location;
              rating := raw_rating place;
              vicinity := raw_vicinity place |}
  | None => None
  end.

(** The loop [for (const type of types)] of [findNearbyPlaces], from the
    places pushed so far. *)
Fixpoint nearbyLoop (lat lng : num) (radius : num) (types : list string)
    (places : list Place) : Async (list Place) :=
  match types with
  | [] => ret places
  | type :: rest =>
      bind (get "/place/nearbysearch/json"
                (NearbyParams {| lat := lat; lng := lng |} radius type
                              (apiKey config)))
           (fun data =>
              match data with
              | NoBody => throw TypeError
              | Places results =>
                  match mapThrowing toPlace results with
                  | Some typePlaces =>
                      nearbyLoop lat lng radius rest (places ++ typePlaces)
                  | None => throw TypeError
                  end
              | _ => nearbyLoop lat lng radius rest places
              end)
  end.

Definition findNearbyPlaces (lat lng : num) (types : list string)
    (radius : num) : Async (list Place) :=
  if switchedOff (enablePlaces config) then ret []
  else tryCatch (nearbyLoop lat lng radius types []) (fun _ => ret []).

(** [None] where [result.location.lat] would throw. *)
Definition toElevationPoint (result : RawElevation)
  : option (ElevationPoint num) :=
  match raw_location result with
  | Some location =>
      Some (Build_ElevationPoint (raw_elevation result) location
                                 (raw_resolution result))
  | None => None
  end.

Definition getElevation (locations : list (LatLng num))
  : Async (list (ElevationPoint num)) :=
  if switchedOff (enableElevation config) then ret []
  else
    tryCatch
      (bind (get "/elevation/json"
                 (ElevationParams locations (apiKey config)))
            (fun data =>
               match data with
               | NoBody => throw TypeError
               | Elevations results =>
                   match mapThrowing toElevationPoint results with
                   | Some points => ret points
                   | None => throw TypeError
                   end
               | _ => ret []
               end))
      (fun _ => ret []).

(** [getDirections] returns the body as it is, or [null]. *)
Definition getDirections (origin destination : LatLng num) (mode : string)
  : Async (option Data) :=
  if switchedOff (enableDirections config) then ret None
  else
    tryCatch
      (bind (get "/directions/json"
                 (DirectionsParams origin destination mode (apiKey config)))
            (fun data =>
               match data with
               | NoBody => ret None
               | _ => ret (Some data)
               end))
      (fun _ => ret None).
End Model.

Arguments NoBody {num}.
Arguments Other {num}.
Arguments NoAnswer {num}.
Arguments Resolved {A}.
Arguments Rejected {A}.

End Google.

(* ================================================================== *)
(** * Route handlers over the Tractive service (routes/auth, routes/trackers) *)

(** [ApiResponse<T>]; [timestamp] is kept as the time value whose ISO
    rendering the code sends. *)
Record ApiResponse (T : Type) : Type := {
  success : bool;
  data_ : option T;                   (* data *)
  error : option string;
  timestamp_ : N                      (* timestamp *)
}.

(** What a handler sends: [res.status(code).json(body)], the status being 200
    for a bare [res.json(body)]. *)
Record HttpResponse (T : Type) : Type := {
  httpStatus : Z;
  json : ApiResponse T
}.

(** The [data] of the login route and of the command routes. *)
Record LoginBody : Type := { message : string; sessionToken : string }.

Record CommandBody : Type := { command_message : string }.   (* message *)

Section Routes.
Context {num : Type} {JN : JsNumber num}.
Variable email password : string.
Variable now : N.
Variable upstream : nat -> Request -> Reply num.

Local Open Scope string_scope.
Local Open Scope async_scope.

Definition failureResponse {T : Type} (code : Z) (text : string)
  : HttpResponse T :=
  {| httpStatus := code;
     json := {| success := false; data_ := None; error := Some text;
                timestamp_ := now |} |}.

(** [POST /api/auth/login-tractive] *)
Definition loginTractiveRoute (fuel : nat) : Async num (HttpResponse LoginBody) :=
  tryCatch
    (ok <- authenticate email password now upstream fuel ;;
     if ok then
       ret {| httpStatus := 200;
              json := {| success := true;
                         data_ := Some {| message := "Authentication successful";
                                          sessionToken :=
                                            "server-managed-session" |};
                         error := None;
                         timestamp_ := now |} |}
     else ret (failureResponse 401 "Invalid Tractive credentials"))
    (fun _ => ret (failureResponse 500 "Authentication failed")).

(** [POST /api/trackers/:id/led] *)
Definition ledRoute (fuel : nat) (id : string)
  : Async num (HttpResponse CommandBody) :=
  tryCatch
    (ok <- triggerLED email password now upstream fuel id ;;
     ret {| httpStatus := 200;
            json := {| success := ok;
                       data_ := Some {| command_message := "LED command sent" |};
                       error := None;
                       timestamp_ := now |} |})
    (fun _ => ret (failureResponse 500 "Failed to trigger LED")).

(** [POST /api/trackers/:id/buzzer] *)
Definition buzzerRoute (fuel : nat) (id : string)
  : Async num (HttpResponse CommandBody) :=
  tryCatch
    (ok <- triggerBuzzer email password now upstream fuel id ;;
     ret {| httpStatus := 200;
            json := {| success := ok;
                       data_ := Some {| command_message :=
                                          "Buzzer command sent" |};
                       error := None;
                       timestamp_ := now |} |})
    (fun _ => ret (failureResponse 500 "Failed to trigger buzzer")).
End Routes.

(* ================================================================== *)
(** * Definitions used to state the properties *)

(** The consecutive pairs [(l[0], l[1]); (l[1], l[2]); ...] of a sequence. *)
Fixpoint consecutivePairs {A : Type} (l : list A) : list (A * A) :=
  match l with
  | a :: (b :: _) as t => (a, b) :: consecutivePairs t
  | _ => []
  end.

Section LoopTurns.
Context {num : Type} {JN : JsNumber num} {JM : JsMath num}.

Local Open Scope js_scope.

(** One turn of the distance loop, on a pair of positions. *)
Definition addLeg (total : num) (pq : Position num * Position num) : num :=
  total + calculateHaversineDistance (latitude (fst pq)) (longitude (fst pq))
                                     (latitude (snd pq)) (longitude (snd pq)).

(** The haversine of the central angle between two points given in degrees:
    the [a] of [calculateHaversineDistance]. *)
Definition haversineTerm (lat1 lng1 lat2 lng2 : num) : num :=
  let radians := Math_PI / lit 180 in
  Math_sin ((lat2 - lat1) * radians / lit 2)
  * Math_sin ((lat2 - lat1) * radians / lit 2)
  + Math_cos (lat1 * radians) * Math_cos (lat2 * radians)
    * Math_sin ((lng2 - lng1) * radians / lit 2)
    * Math_sin ((lng2 - lng1) * radians / lit 2).

(** The haversine great-circle distance between two points given in
    degrees, on a sphere of radius [radius] metres, as a computation over the
    number type: the haversine [a] of the central angle, the angle in its
    [atan2] form, then the arc. *)
Definition haversine (radius : Z) (lat1 lng1 lat2 lng2 : num) : num :=
  let a := haversineTerm lat1 lng1 lat2 lng2 in
  lit radius * (lit 2 * Math_atan2 (Math_sqrt a) (Math_sqrt (lit 1 - a))).

(** One turn of the elevation loop, on a pair of samples. *)
Definition addDelta (gl : num * num)
    (ee : ElevationPoint num * ElevationPoint num) : num * num :=
  let elevDiff := elevation (snd ee) - elevation (fst ee) in
  if elevDiff >? lit 0
  then (fst gl + elevDiff, snd gl)
  else (fst gl, snd gl + Math_abs elevDiff).

(** The elevation accumulators as [calculateTrailStats] leaves them. *)
Definition gainLossOf (elevations : option (list (ElevationPoint num)))
  : num * num :=
  match elevations with
  | Some els =>
      if (1 <? List.length els)%nat
      then fold_left addDelta (consecutivePairs els) (lit 0, lit 0)
      else (lit 0, lit 0)
  | None => (lit 0, lit 0)
  end.
End LoopTurns.

(** ** In exact arithmetic *)

Definition Rsum (l : list R) : R := fold_right Rplus 0%R l.

(** The haversine formula for the great-circle distance between two points
    given in degrees, on a sphere of radius 6,371,000 m. *)
Definition haversineFormula (lat1 lng1 lat2 lng2 : R) : R :=
  let phi1 := (lat1 * (PI / 180))%R in
  let phi2 := (lat2 * (PI / 180))%R in
  let lambda1 := (lng1 * (PI / 180))%R in
  let lambda2 := (lng2 * (PI / 180))%R in
  (2 * 6371000 *
   asin (sqrt ((sin ((phi2 - phi1) / 2))² +
               cos phi1 * cos phi2 * (sin ((lambda2 - lambda1) / 2))²)))%R.

Definition legLength (pq : Position R * Position R) : R :=
  haversineFormula (latitude (fst pq)) (longitude (fst pq))
                   (latitude (snd pq)) (longitude (snd pq)).

(** The differences between consecutive elevation samples. *)
Definition deltas (els : list (ElevationPoint R)) : list R :=
  map (fun ee => (elevation (snd ee) - elevation (fst ee))%R)
      (consecutivePairs els).

Definition positiveDelta (d : R) : R := if Rlt_dec 0 d then d else 0%R.

Definition negativeDeltaAbs (d : R) : R := if Rlt_dec d 0 then Rabs d else 0%R.

(** Sum of the positive deltas; sum of the absolute values of the negative
    deltas. *)
Definition gainOf (els : list (ElevationPoint R)) : R :=
  Rsum (map positiveDelta (deltas els)).

Definition lossOf (els : list (ElevationPoint R)) : R :=
  Rsum (map negativeDeltaAbs (deltas els)).

(** A position at the given coordinates, and an elevation sample. *)
Definition positionAt {num : Type} {JN : JsNumber num} (t : string)
    (la lo : num) : Position num :=
  {| tracker_id := "t"; timestamp := t; latitude := la; longitude := lo;
     speed := lit 0; accuracy := lit 0; altitude := None;
     sensor_used := "gps"; pos_status := lit 0; address := None |}.

Definition sampleAt {num : Type} {JN : JsNumber num} (e : num)
  : ElevationPoint num :=
  {| elevation := e;
     location := {| lat := lit 0; lng := lit 0 |};
     resolution := lit 1 |}.

(** Adding offsets to the coordinates of a position. *)
Definition shift {num : Type} {JN : JsNumber num} (dlat dlng : num)
    (p : Position num) : Position num :=
  {| tracker_id := tracker_id p; timestamp := timestamp p;
     latitude := add (latitude p) dlat;
     longitude := add (longitude p) dlng;
     speed := speed p; accuracy := accuracy p; altitude := altitude p;
     sensor_used := sensor_used p; pos_status := pos_status p;
     address := address p |}.

(** Adding an offset to the longitude of a position, the latitude as it
    is. *)
Definition shiftLongitude {num : Type} {JN : JsNumber num} (dlng : num)
    (p : Position num) : Position num :=
  {| tracker_id := tracker_id p; timestamp := timestamp p;
     latitude := latitude p;
     longitude := add (longitude p) dlng;
     speed := speed p; accuracy := accuracy p; altitude := altitude p;
     sensor_used := sensor_used p; pos_status := pos_status p;
     address := address p |}.

(** The offset leaves the computed difference between the longitudes of
    each two consecutive positions as it was. *)
Definition keepsLongitudeSteps {num : Type} {JN : JsNumber num} (offset : num)
    (positions : list (Position num)) : Prop :=
  forall p q,
    In (p, q) (consecutivePairs positions) ->
    sub (add (longitude q) offset) (add (longitude p) offset)
    = sub (longitude q) (longitude p).

(** ** For the client *)

(** The session invariant: a token is stored, it is not empty, and the
    current time is before the stored expiry. *)
Definition sessionValid (now : N) (s : Service) : Prop :=
  exists token expiry,
    accessToken s = Some token /\ token <> ""%string /\
    sessionExpiry s = Some expiry /\ (Z.of_N now < expiry)%Z.

(** Running [operation] from [st] sends, before anything else, a request
    with method [m] and path [path]. *)
Definition sendsFirst {num A : Type} (operation : Async num A) (st : State)
    (m : Method) (path : string) : Prop :=
  exists r rest,
    sent (snd (operation st)) = sent st ++ r :: rest /\
    method r = m /\ url r = path.

(** The state once one more request has gone out. *)
Definition afterSending (st : State) (r : Request) : State :=
  {| service := service st; sent := sent st ++ [r] |}.

(** ** Concrete inputs *)

(** The four elevation samples 100, 150, 120, 140. *)
Definition fourSamples : list (ElevationPoint R) :=
  [sampleAt 100%R; sampleAt 150%R; sampleAt 120%R; sampleAt 140%R].

(** Two positions half a turn apart on the equator. *)
Definition equatorTrail : list (Position R) :=
  [positionAt "2024-01-01T00:00:00Z" 0%R (-90)%R;
   positionAt "2024-01-01T00:01:00Z" 0%R 90%R].

(** A service holding a token that expires at time 5000; the runs below
    read the clock at 1000. *)
Definition heldService : Service :=
  {| accessToken := Some "tok1"%string; userId := Some "u1"%string;
     sessionExpiry := Some 5000%Z;
     defaultAuthorization := Some "Bearer tok1"%string |}.

Definition heldState : State := {| service := heldService; sent := [] |}.

Definition freshState : State := {| service := newService; sent := [] |}.

Definition loginOk : Reply PrimFloat.float :=
  Answer 200 (DLogin {| Raw.access_token := "tok2"; Raw.user_id := "u1";
                        Raw.expires_in := 3600 |}).

(** Upstream accepts every login and answers 401 to the first two other
    requests, then 200. *)
Definition unauthorizedTwice (n : nat) (r : Request) : Reply PrimFloat.float :=
  if String.eqb (url r) "/auth/login" then loginOk
  else if (n <? 4)%nat then Answer 401 DNull
  else Answer 200 (DTrackers []).

(** Upstream accepts every login and answers 401 to everything else. *)
Definition alwaysUnauthorized (n : nat) (r : Request)
  : Reply PrimFloat.float :=
  if String.eqb (url r) "/auth/login" then loginOk else Answer 401 DNull.

(** Upstream answers every request with 200 and no positions. *)
Definition noPositions (n : nat) (r : Request) : Reply PrimFloat.float :=
  Answer 200 (DPositions []).

(** Upstream answers every request with 401. *)
Definition refusesAll (n : nat) (r : Request) : Reply PrimFloat.float :=
  Answer 401 DNull.

(** Upstream accepts every login and answers 401 to the first request only. *)
Definition unauthorizedOnce (n : nat) (r : Request) : Reply PrimFloat.float :=
  if String.eqb (url r) "/auth/login" then loginOk
  else if (n <? 1)%nat then Answer 401 DNull
  else Answer 200 (DTrackers []).

(** The four samples as binary64 numbers, and two binary64 positions. *)
Definition fourSamples64 : list (ElevationPoint PrimFloat.float) :=
  [sampleAt (lit 100); sampleAt (lit 150); sampleAt (lit 120);
   sampleAt (lit 140)].

Definition twoPositions64 : list (Position PrimFloat.float) :=
  [positionAt "2024-01-01T00:00:00Z" (lit 0) (lit 0);
   positionAt "2024-01-01T00:01:00Z" (lit 0) (lit 1)].

(** ** The seven operations, taken together *)

(** A call of one of the seven operations; [OpPositionHistory] is a call
    with the two dates of the given time values. *)
Inductive Operation : Type :=
| OpTrackers
| OpLatestPosition (trackerId : string)
| OpPositionHistory (trackerId : string) (from to : Z)
| OpGeofences (trackerId : string)
| OpLiveTracking (trackerId : string) (active : bool)
| OpLED (trackerId : string)
| OpBuzzer (trackerId : string).

(** The message of the error an operation throws from its [catch]. *)
Definition failureMessage (op : Operation) : string :=
  match op with
  | OpTrackers => "Failed to fetch trackers"
  | OpLatestPosition _ => "Failed to fetch latest position"
  | OpPositionHistory _ _ _ => "Failed to fetch position history"
  | OpGeofences _ => "Failed to fetch geofences"
  | OpLiveTracking _ _ => "Failed to toggle live tracking"
  | OpLED _ => "Failed to trigger LED"
  | OpBuzzer _ => "Failed to trigger buzzer"
  end.

Definition authenticationFailure : string :=
  "Failed to authenticate with Tractive API".

Section Operations.
Context {num : Type} {JN : JsNumber num}.
Variable email password : string.
Variable now : N.
Variable upstream : nat -> Request -> Reply num.

(** An awaited call whose value is dropped. *)
Definition forget {A : Type} (m : Async num A) : Async num unit :=
  bind m (fun _ => ret tt).

Definition run (fuel : nat) (op : Operation) : Async num unit :=
  match op with
  | OpTrackers => forget (getTrackers email password now upstream fuel)
  | OpLatestPosition trackerId =>
      forget (getLatestPosition email password now upstream fuel trackerId)
  | OpPositionHistory trackerId from to =>
      forget (getPositionHistory email password now upstream fuel
                                 trackerId (DateAt from) (DateAt to))
  | OpGeofences trackerId =>
      forget (getGeofences email password now upstream fuel trackerId)
  | OpLiveTracking trackerId active =>
      forget (toggleLiveTracking email password now upstream fuel
                                 trackerId active)
  | OpLED trackerId =>
      forget (triggerLED email password now upstream fuel trackerId)
  | OpBuzzer trackerId =>
      forget (triggerBuzzer email password now upstream fuel trackerId)
  end.

(** The request configuration an operation passes to the axios instance. *)
Definition requestOf (s : Service) (op : Operation) : Request :=
  match op with
  | OpTrackers =>
      get ("/user/" ++ interpolate (userId s) ++ "/trackers")%string None
  | OpLatestPosition trackerId =>
      get ("/tracker/" ++ trackerId ++ "/positions")%string
          (Some {| time_from := Z.of_N now - 24 * 60 * 60 * 1000;
                   time_to := Z.of_N now;
                   format := "json_segments" |})
  | OpPositionHistory trackerId from to =>
      get ("/tracker/" ++ trackerId ++ "/positions")%string
          (Some {| time_from := from; time_to := to;
                   format := "json_segments" |})
  | OpGeofences trackerId =>
      get ("/tracker/" ++ trackerId ++ "/geofences")%string None
  | OpLiveTracking trackerId active =>
      post ("/tracker/" ++ trackerId ++ "/live_tracking")%string
           (LiveTracking active)
  | OpLED trackerId => post ("/tracker/" ++ trackerId ++ "/led")%string NoBody
  | OpBuzzer trackerId =>
      post ("/tracker/" ++ trackerId ++ "/buzzer")%string NoBody
  end.
End Operations.

(** A login reply that carries a usable token. *)
Definition carriesToken {num : Type} (d : Data num) : bool :=
  match d with
  | DLogin l => truthyString (Some (Raw.access_token l))
  | _ => false
  end.

(** The session a login reply [l] received at time [now] makes. *)
Definition sessionOf (now : N) (l : Raw.Login) : Service :=
  {| accessToken := Some (Raw.access_token l);
     userId := Some (Raw.user_id l);
     sessionExpiry := Some (Z.of_N now + Raw.expires_in l * 1000)%Z;
     defaultAuthorization := Some ("Bearer " ++ Raw.access_token l)%string |}.

(** The default header is the Bearer header of the stored token, if any. *)
Definition headerMatchesToken (s : Service) : Prop :=
  defaultAuthorization s
  = option_map (fun token => ("Bearer " ++ token)%string) (accessToken s).

(** [r] carries the Bearer header of a non-empty token. *)
Definition carriesBearer (r : Request) : Prop :=
  exists token,
    token <> ""%string /\ Authorization r = Some ("Bearer " ++ token)%string.

(** Every request sent so far, the logins apart, carried a Bearer header. *)
Definition allAuthorized (st : State) : Prop :=
  forall r, In r (sent st) -> url r <> "/auth/login"%string -> carriesBearer r.

(** A login reply after which [authenticate] reports failure without the
    interceptor stepping in: no answer, a refused status (other than a 401
    while a token is held), or an accepted reply without a usable token. *)
Definition loginFails {num : Type} (tokenHeld : bool) (reply : Reply num)
  : bool :=
  match reply with
  | NoAnswer => true
  | Answer code d =>
      if validateStatus code then negb (carriesToken d)
      else negb ((code =? 401)%Z && tokenHeld)
  end.

(** A reply that is no answer, or a refused status other than 401. *)
Definition failsPlainly {num : Type} (reply : Reply num) : bool :=
  match reply with
  | NoAnswer => true
  | Answer code _ => negb (validateStatus code) && negb (code =? 401)%Z
  end.

(** A service used for a series of calls, each at its own clock reading and
    with its own fuel; the state after the last one. *)
Definition runAll {num : Type} {JN : JsNumber num} (email password : string)
    (upstream : nat -> Request -> Reply num)
    (calls : list (N * nat * Operation)) (st : State) : State :=
  fold_left
    (fun st call =>
       snd (run email password (fst (fst call)) upstream (snd (fst call))
                (snd call) st))
    calls st.

(** ** For the mapping service client *)

(** A call that never rejects, resolves with [nothing] and sends no request
    when its switch is off, and sends at most [atMost] requests. *)
Definition bestEffort {num A : Type} (call : @Google.Async num A)
    (off : bool) (nothing : A) (atMost : nat) : Prop :=
  forall log,
    (exists a, fst (call log) = Google.Resolved a) /\
    (off = true -> call log = (Google.Resolved nothing, log)) /\
    exists new,
      snd (call log) = log ++ new /\ (List.length new <= atMost)%nat.

(** A reply that makes a places query throw: no answer, a refused status, no
    body, or a place without [geometry.location]. *)
Definition placesQueryFails {num : Type} (reply : @Google.Reply num) : bool :=
  match reply with
  | Google.NoAnswer => true
  | Google.Answer code data =>
      negb (validateStatus code) ||
      match data with
      | Google.NoBody => true
      | Google.Places results =>
          existsb (fun place =>
                     match Google.geometry place with
                     | Some _ => false
                     | None => true
                     end)
                  results
      | _ => false
      end
  end.

(** The request of [findNearbyPlaces] for one type. *)
Definition nearbyRequest {num : Type} (config : Google.Config)
    (lat lng radius : num) (type : string) : @Google.Request num :=
  {| Google.path := "/place/nearbysearch/json";
     Google.params :=
       Google.NearbyParams {| lat := lat; lng := lng |} radius type
                           (Google.apiKey config) |}.

(** The places of one reply, each with its [geometry.location]. *)
Definition placesOf {num : Type} (results : list (@Google.RawPlace num))
  : list (@Google.Place num) :=
  flat_map (fun place =>
              match Google.toPlace place with
              | Some p => [p]
              | None => []
              end)
           results.

(** ** More concrete inputs *)

(** Upstream answers every request with 500. *)
Definition serverError (n : nat) (r : Request) : Reply PrimFloat.float :=
  Answer 500 DNull.

(** Upstream answers every request with 204 and no body. *)
Definition noContent (n : nat) (r : Request) : Reply PrimFloat.float :=
  Answer 204 DNull.



(** A circle fence, and a fence that lacks its shape. *)
Definition circleFence : Raw.Fence PrimFloat.float :=
  {| Raw.fence_id := "f1"; Raw.name := "Garden";
     Raw.shape := Some {| Raw.type := "circle";
                          Raw.center := Some {| lat := lit 48; lng := lit 16 |};
                          Raw.radius := Some (lit 50);
                          Raw.coordinates := None |};
     Raw.active := true |}.

Definition shapelessFence : Raw.Fence PrimFloat.float :=
  {| Raw.fence_id := "f2"; Raw.name := "Broken"; Raw.shape := None;
     Raw.active := true |}.

Definition brokenFencesUpstream (n : nat) (r : Request)
  : Reply PrimFloat.float :=
  Answer 200 (DGeofences [circleFence; shapelessFence]).

(** The mapping service with every switch on and a key. *)
Definition allOn : Google.Config :=
  {| Google.apiKey := "key"; Google.enableGeocoding := true;
     Google.enableDirections := true; Google.enablePlaces := true;
     Google.enableElevation := true |}.

Definition dogPark : @Google.RawPlace PrimFloat.float :=
  {| Google.raw_place_id := "p1"; Google.raw_name := "Dog park";
     Google.raw_types := ["park"; "pet_store"]%string;
     Google.geometry := Some {| lat := lit 48; lng := lit 16 |};
     Google.raw_rating := None; Google.raw_vicinity := None |}.

(** The mapping service answers every request with the dog park; or not at
    all. *)
Definition dogParkEverywhere (n : nat) (r : @Google.Request PrimFloat.float)
  : @Google.Reply PrimFloat.float :=
  Google.Answer 200 (Google.Places [dogPark]).

Definition unreachable (n : nat) (r : @Google.Request PrimFloat.float)
  : @Google.Reply PrimFloat.float :=
  Google.NoAnswer.

(** ** In binary64 *)

(** What ECMAScript fixes of [Math.sqrt] and [Math.atan2], whatever their
    approximation elsewhere: the square root of a negative number is NaN,
    and [atan2] of a NaN is NaN. *)
Definition nanRules (JM : JsMath PrimFloat.float) : Prop :=
  (forall x,
     PrimFloat.ltb x PrimFloat.zero = true ->
     PrimFloat.is_nan (Math_sqrt x) = true) /\
  (forall y x,
     PrimFloat.is_nan y || PrimFloat.is_nan x = true ->
     PrimFloat.is_nan (Math_atan2 y x) = true).

(** A table of [Math] for the run on the points (0.08, 0) and (-0.08, 180),
    which are nearly antipodal.  [sin] and [cos] hold the correctly rounded
    sine and cosine at the arguments this run reaches; what is not tabulated
    is NaN, [atan2] altogether. *)
Module Binary64Values.
Import PrimFloat.

Definition pi : float := 0x1.921fb54442d18p+1%float.

Definition sinTable (x : float) : float :=
  if (x =? -0x1.6e05a695f8191p-10)%float then (-0x1.6e059ecaa87dcp-10)%float
  else if (x =? 0x1.921fb54442d18p+0)%float then 1%float
  else nan.

Definition cosTable (x : float) : float :=
  if (x =? 0x1.6e05a695f8191p-10)%float then 0x1.ffffdf4abdd1ep-1%float
  else if (x =? -0x1.6e05a695f8191p-10)%float then 0x1.ffffdf4abdd1ep-1%float
  else nan.

(** 0.08 and -0.08 *)
Definition north : float := 0x1.47ae147ae147bp-4%float.

Definition south : float := (-0x1.47ae147ae147bp-4)%float.
End Binary64Values.

Definition tableMath : JsMath PrimFloat.float :=
  {| Math_PI := Binary64Values.pi;
     Math_sin := Binary64Values.sinTable;
     Math_cos := Binary64Values.cosTable;
     Math_sqrt := PrimFloat.sqrt;
     Math_atan2 := fun _ _ => PrimFloat.nan |}.

Definition nearAntipodes : list (Position PrimFloat.float) :=
  [positionAt "2024-01-01T00:00:00Z" Binary64Values.north (lit 0);
   positionAt "2024-01-01T00:01:00Z" Binary64Values.south (lit 180)].
(* ================================================================== *)
(** * Trail analytics: what the loops compute *)

Lemma nth_error_middle {A : Type} (pre : list A) (a : A) (rest : list A) :
  nth_error (pre ++ a :: rest) (List.length pre) = Some a.
Proof.
  induction pre as [|x pre IH]; simpl; [reflexivity | exact IH].
Qed.

Lemma nth_error_after {A : Type} (pre : list A) (a b : A) (rest : list A) :
  nth_error (pre ++ a :: b :: rest) (S (List.length pre)) = Some b.
Proof.
  induction pre as [|x pre IH]; simpl; [reflexivity | exact IH].
Qed.

(** A loop [for (i = 1; i < l.length; i++)] whose body reads [l[i - 1]] and
    [l[i]] is a left fold over the consecutive pairs, and never fails. *)
Lemma forLoop_pairs {A S : Type} (l : list A) (body : nat -> S -> option S)
    (step : S -> A * A -> S) :
  (forall i s a b,
      nth_error l i = Some a -> nth_error l (Datatypes.S i) = Some b ->
      body (Datatypes.S i) s = Some (step s (a, b))) ->
  forall s,
    forLoop (List.length l - 1) 1 body s
    = Some (fold_left step (consecutivePairs l) s).
Proof.
  intros Hbody.
  assert (G : forall rest pre a s,
             l = pre ++ a :: rest ->
             forLoop (List.length rest) (Datatypes.S (List.length pre)) body s
             = Some (fold_left step (consecutivePairs (a :: rest)) s)).
  { induction rest as [|b rest IH]; intros pre a s El.
    - reflexivity.
    - cbn [List.length forLoop].
      rewrite (Hbody (List.length pre) s a b).
      + replace (Datatypes.S (List.length pre))
          with (List.length (pre ++ [a])) by (rewrite length_app; simpl; lia).
        rewrite (IH (pre ++ [a]) b).
        * reflexivity.
        * rewrite <- app_assoc. exact El.
      + rewrite El. apply nth_error_middle.
      + rewrite El. apply nth_error_after. }
  intros s. destruct l as [|a rest].
  - reflexivity.
  - replace (List.length (a :: rest) - 1)%nat with (List.length rest)
      by (simpl; lia).
    apply (G rest [] a s). reflexivity.
Qed.

Lemma nth_error_last_some {A : Type} (l : list A) :
  l <> [] -> exists x, nth_error l (List.length l - 1) = Some x.
Proof.
  intros Hl.
  destruct (nth_error l (List.length l - 1)) as [x|] eqn:E.
  - exists x. reflexivity.
  - apply nth_error_None in E. destruct l; [congruence | simpl in E; lia].
Qed.

Section TrailAnalyticsFacts.
Context {num : Type} {JN : JsNumber num} {JM : JsMath num}.
Variable Date_getTime : string -> num.

Local Open Scope js_scope.

Lemma distanceLoop_fold (positions : list (Position num)) (z : num) :
  forLoop (List.length positions - 1) 1 (distanceStep positions) z
  = Some (fold_left addLeg (consecutivePairs positions) z).
Proof.
  apply forLoop_pairs. intros i s a b Ha Hb.
  unfold distanceStep.
replace (Datatypes.S i - 1)%nat with i by lia. rewrite Ha, Hb. reflexivity.
Qed.

Lemma elevationLoop_fold (elevations : list (ElevationPoint num)) gl :
  forLoop (List.length elevations - 1) 1 (elevationStep elevations) gl
  = Some (fold_left addDelta (consecutivePairs elevations) gl).
Proof.
  apply forLoop_pairs. intros i s a b Ha Hb.
  unfold elevationStep, addDelta.
replace (Datatypes.S i - 1)%nat with i by lia. rewrite Ha, Hb. simpl.
  destruct (_ >? _); reflexivity.
Qed.

(** With two positions or more the function returns, and its fields are
    these. *)
Lemma calculateTrailStats_long positions elevations :
  (2 <= List.length positions)%nat ->
  exists first last,
    nth_error positions 0 = Some first /\
    nth_error positions (List.length positions - 1) = Some last /\
    let totalDistance :=
      fold_left addLeg (consecutivePairs positions) (lit 0) in
    let duration :=
      (Date_getTime (timestamp last) - Date_getTime (timestamp first))
      / lit 1000 in
    let gl := gainLossOf elevations in
    calculateTrailStats Date_getTime positions elevations
    = Some {| distance := totalDistance;
              duration := duration;
              avgSpeed := if duration >? lit 0
                          then totalDistance / duration else lit 0;
              elevationGain := fst gl;
              elevationLoss := snd gl;
              avgGrade := if totalDistance >? lit 0
                          then ((fst gl - snd gl) / totalDistance) * lit 100
                          else lit 0 |}.
Proof.
  intros Hlen.
  destruct positions as [|first rest]; [simpl in Hlen; lia|].
  destruct (@nth_error_last_some _ (first :: rest)) as [last Hlast];
    [discriminate|].
  exists first, last. split; [reflexivity|]. split; [exact Hlast|].
  cbv zeta. unfold calculateTrailStats.
  destruct (Nat.ltb_spec (List.length (first :: rest)) 2) as [Hlt|_]; [lia|].
  rewrite distanceLoop_fold, Hlast. cbn [nth_error].
  assert (E : match elevations with
              | Some els =>
                  if (1 <? List.length els)%nat
                  then forLoop (List.length els - 1) 1 (elevationStep els)
                               (lit 0, lit 0)
                  else Some (lit 0, lit 0)
              | None => Some (lit 0, lit 0)
              end = Some (gainLossOf elevations)).
  { unfold gainLossOf. destruct elevations as [els|]; [|reflexivity].
    destruct (1 <? List.length els)%nat; [|reflexivity].
    apply elevationLoop_fold. }
  rewrite E. destruct (gainLossOf elevations) as [g l]. reflexivity.
Qed.

Lemma calculateTrailStats_short positions elevations :
  (List.length positions < 2)%nat ->
  calculateTrailStats Date_getTime positions elevations = Some zeroStats.
Proof.
  intros Hlen. unfold calculateTrailStats.
  destruct (Nat.ltb_spec (List.length positions) 2) as [_|Hge];
    [reflexivity | lia].
Qed.
End TrailAnalyticsFacts.

(** ** The haversine code against the formula, in exact arithmetic *)

Section ExactArithmetic.
Local Open Scope R_scope.

Lemma haversine_arg_range (phi1 phi2 s : R) :
  s² <= 1 ->
  0 <= (sin ((phi2 - phi1) / 2))² + cos phi1 * cos phi2 * s² <= 1.
Proof.
  intros Hs.
  set (m := (phi1 + phi2) / 2). set (d := (phi2 - phi1) / 2).
  replace phi1 with (m - d) by (unfold m, d; field).
  replace phi2 with (m + d) by (unfold m, d; field).
  replace ((m + d - (m - d)) / 2) with d by field.
  rewrite cos_minus, cos_plus.
  pose proof (sin2_cos2 m) as Hm. pose proof (sin2_cos2 d) as Hd.
  unfold Rsqr in *.
  assert (E : (cos m * cos d + sin m * sin d) * (cos m * cos d - sin m * sin d)
              = cos m * cos m - sin d * sin d) by nra.
  rewrite E.
  assert (0 <= s * s) by nra.
  assert (0 <= sin d * sin d) by nra.
  assert (0 <= cos m * cos m) by nra.
  assert (sin d * sin d <= 1) by nra.
  assert (cos m * cos m <= 1) by nra.
  split; nra.
Qed.

Lemma Ratan2_sqrt (a : R) :
  0 <= a <= 1 -> Ratan2 (sqrt a) (sqrt (1 - a)) = asin (sqrt a).
Proof.
  intros [H0 H1]. unfold Ratan2.
  destruct (Req_dec a 1) as [->|Hne].
  - replace (1 - 1) with 0 by ring. rewrite sqrt_0, sqrt_1, asin_1.
    destruct (Rlt_dec 0 0); [lra|].
    destruct (Rlt_dec 0 1); [reflexivity | lra].
  - assert (Hlt : 0 < sqrt (1 - a)) by (apply sqrt_lt_R0; lra).
    destruct (Rlt_dec 0 (sqrt (1 - a))); [|lra].
    assert (Hs1 : sqrt a < 1).
    { rewrite <- sqrt_1. apply sqrt_lt_1; lra. }
    pose proof (sqrt_pos a).
    rewrite asin_atan by lra.
    rewrite Rsqr_sqrt by lra. reflexivity.
Qed.

(** The code's [atan2] form is the haversine formula. *)
Lemma calculateHaversineDistance_formula (lat1 lng1 lat2 lng2 : R) :
  calculateHaversineDistance lat1 lng1 lat2 lng2
  = haversineFormula lat1 lng1 lat2 lng2.
Proof.
  unfold calculateHaversineDistance, haversineFormula, toRadians. simpl.
  set (phi1 := lat1 * (PI / 180)). set (phi2 := lat2 * (PI / 180)).
  replace ((lat2 - lat1) * (PI / 180)) with (phi2 - phi1)
    by (unfold phi1, phi2; ring).
  replace ((lng2 - lng1) * (PI / 180))
    with (lng2 * (PI / 180) - lng1 * (PI / 180)) by ring.
  set (s := sin ((lng2 * (PI / 180) - lng1 * (PI / 180)) / 2)).
  replace (sin ((phi2 - phi1) / 2) * sin ((phi2 - phi1) / 2)
           + cos phi1 * cos phi2 * s * s)
    with ((sin ((phi2 - phi1) / 2))² + cos phi1 * cos phi2 * s²)
    by (unfold Rsqr; ring).
  rewrite Ratan2_sqrt.
  - ring.
  - apply haversine_arg_range. unfold s.
    pose proof (sin2_cos2 ((lng2 * (PI / 180) - lng1 * (PI / 180)) / 2)) as E.
    pose proof (Rle_0_sqr (cos ((lng2 * (PI / 180) - lng1 * (PI / 180)) / 2))).
    lra.
Qed.

(** So is the distance named in the statements, read in exact arithmetic. *)
Lemma haversine_in_exact_arithmetic (lat1 lng1 lat2 lng2 : R) :
  haversine 6371000 lat1 lng1 lat2 lng2
  = haversineFormula lat1 lng1 lat2 lng2.
Proof. exact (calculateHaversineDistance_formula lat1 lng1 lat2 lng2). Qed.

Lemma fold_addLeg_sum (pairs : list (Position R * Position R)) (z : R) :
  fold_left addLeg pairs z = z + Rsum (map legLength pairs).
Proof.
  revert z. induction pairs as [|pq pairs IH]; intros z;
    cbn [fold_left map Rsum fold_right].
  - ring.
  - rewrite IH. unfold addLeg, legLength.
    rewrite calculateHaversineDistance_formula.
    cbn [add R_JsNumber]. unfold Rsum. ring.
Qed.

Lemma fold_addDelta_sum (pairs : list (ElevationPoint R * ElevationPoint R))
    (g l : R) :
  fold_left addDelta pairs (g, l)
  = (g + Rsum (map positiveDelta
                   (map (fun ee => elevation (snd ee) - elevation (fst ee))
                        pairs)),
     l + Rsum (map negativeDeltaAbs
                   (map (fun ee => elevation (snd ee) - elevation (fst ee))
                        pairs))).
Proof.
  revert g l. induction pairs as [|ee pairs IH]; intros g l; simpl.
  - f_equal; ring.
  - unfold addDelta at 2. simpl.
    set (d := elevation (snd ee) - elevation (fst ee)).
    unfold positiveDelta at 1, negativeDeltaAbs at 1.
    destruct (Rlt_dec 0 d) as [Hpos|Hnpos]; simpl; rewrite IH.
    + destruct (Rlt_dec d 0); [lra|]. f_equal; ring.
    + destruct (Rlt_dec d 0) as [Hneg|Hnneg].
      * f_equal; ring.
      * replace d with 0 by lra. rewrite Rabs_R0. f_equal; ring.
Qed.

Lemma gainLossOf_exact (elevations : option (list (ElevationPoint R))) :
  gainLossOf elevations
  = match elevations with
    | Some els => (gainOf els, lossOf els)
    | None => (0, 0)
    end.
Proof.
  unfold gainLossOf, gainOf, lossOf, deltas.
  destruct elevations as [els|]; [|reflexivity].
  destruct (Nat.ltb_spec 1 (List.length els)) as [Hlen|Hlen].
  - rewrite fold_addDelta_sum. simpl. f_equal; ring.
  - destruct els as [|e [|e' els]]; simpl in *; try reflexivity. lia.
Qed.

(** A half turn along the equator, and two points at the north pole. *)
Lemma haversine_equator_half_turn :
  haversineFormula 0 (-90) 0 90 = 6371000 * PI.
Proof.
  unfold haversineFormula. cbv zeta.
  replace ((0 * (PI / 180) - 0 * (PI / 180)) / 2) with 0 by field.
  replace ((90 * (PI / 180) - -90 * (PI / 180)) / 2) with (PI / 2) by field.
  replace (0 * (PI / 180)) with 0 by field.
  rewrite sin_0, cos_0, sin_PI2. unfold Rsqr.
  replace (0 * 0 + 1 * 1 * (1 * 1)) with 1 by ring.
  rewrite sqrt_1, asin_1. field.
Qed.

Lemma haversine_pole :
  haversineFormula 90 0 90 180 = 0.
Proof.
  unfold haversineFormula. cbv zeta.
  replace ((90 * (PI / 180) - 90 * (PI / 180)) / 2) with 0 by field.
  replace ((180 * (PI / 180) - 0 * (PI / 180)) / 2) with (PI / 2) by field.
  replace (90 * (PI / 180)) with (PI / 2) by field.
  rewrite sin_0, cos_PI2, sin_PI2. unfold Rsqr.
  replace (0 * 0 + 0 * 0 * (1 * 1)) with 0 by ring.
  rewrite sqrt_0, asin_0. ring.
Qed.

Lemma PI_gt_3 : 3 < PI.
Proof. pose proof PI2_3_2. lra. Qed.
End ExactArithmetic.

(* ================================================================== *)
(** * Trail analytics: the properties *)

Section TrailStatsExact.
Variable getTime : string -> R.

Local Open Scope R_scope.

(** The fields of the result in exact arithmetic, for two positions or
    more. *)
Lemma calculateTrailStats_exact (positions : list (Position R))
    (elevations : option (list (ElevationPoint R))) :
  (2 <= List.length positions)%nat ->
  exists stats,
    calculateTrailStats getTime positions elevations = Some stats /\
    distance stats = Rsum (map legLength (consecutivePairs positions)) /\
    (elevationGain stats, elevationLoss stats)
    = match elevations with
      | Some els => (gainOf els, lossOf els)
      | None => (0, 0)
      end /\
    avgGrade stats
    = if Rlt_dec 0 (distance stats)
      then (elevationGain stats - elevationLoss stats) / distance stats * 100
      else 0.
Proof.
  intros Hlen.
  destruct (calculateTrailStats_long getTime positions elevations Hlen)
    as (first & last & _ & _ & E).
  cbv zeta in E. eexists. split; [exact E|]. cbn [distance elevationGain
    elevationLoss avgGrade].
  split; [|split].
  - rewrite fold_addLeg_sum. cbn [lit R_JsNumber]. ring.
  - rewrite <- gainLossOf_exact. destruct (gainLossOf elevations); reflexivity.
  - cbn [gt lit sub mul div R_JsNumber].
    destruct (Rlt_dec 0 _); reflexivity.
Qed.
End TrailStatsExact.

(** C4. For every number type, binary64 included, and every position sequence
    with at least two positions, [calculateTrailStats] returns, and its
    [distance] is the sum, accumulated from 0 in the order of the positions,
    over the consecutive pairs of positions, of the haversine great-circle
    distance computed with Earth radius 6,371,000 m. *)
Theorem C4_distance_is_sum_of_haversine_legs
    (num : Type) (JN : JsNumber num) (JM : JsMath num)
    (getTime : string -> num) (positions : list (Position num))
    (elevations : option (list (ElevationPoint num))) :
  (2 <= List.length positions)%nat ->
  exists stats,
    calculateTrailStats getTime positions elevations = Some stats /\
    distance stats
    = fold_left
        (fun total pq =>
           add total
               (haversine 6371000
                          (latitude (fst pq)) (longitude (fst pq))
                          (latitude (snd pq)) (longitude (snd pq))))
        (consecutivePairs positions) (lit 0).
Proof.
  intros Hlen.
  destruct (calculateTrailStats_long getTime positions elevations Hlen)
    as (first & last & _ & _ & E).
  cbv zeta in E. eexists. split; [exact E | reflexivity].
Qed.

Lemma C4_witness :
  (2 <= List.length twoPositions64)%nat /\
  forall (JM : JsMath PrimFloat.float) (getTime : string -> PrimFloat.float),
  exists stats,
    calculateTrailStats getTime twoPositions64 None = Some stats /\
    distance stats
    = add (lit 0) (haversine 6371000 (lit 0) (lit 0) (lit 0) (lit 1)).
Proof.
  split.
  - simpl. lia.
  - intros JM getTime.
    apply (@C4_distance_is_sum_of_haversine_legs _ _ JM getTime
             twoPositions64 None).
    simpl. lia.
Defined.

Lemma fourSamples_gain_loss :
  gainOf fourSamples = 70%R /\ lossOf fourSamples = 30%R.
Proof.
  unfold gainOf, lossOf, deltas, fourSamples, sampleAt.
  cbn [consecutivePairs map elevation fst snd Rsum fold_right].
  replace (150 - 100)%R with 50%R by ring.
  replace (120 - 150)%R with (-30)%R by ring.
  replace (140 - 120)%R with 20%R by ring.
  unfold positiveDelta, negativeDeltaAbs.
  destruct (Rlt_dec 0 50); [|lra].
  destruct (Rlt_dec 0 (-30)); [lra|].
  destruct (Rlt_dec 0 20); [|lra].
  destruct (Rlt_dec 50 0); [lra|].
  destruct (Rlt_dec (-30) 0); [|lra].
  destruct (Rlt_dec 20 0); [lra|].
  rewrite Rabs_left by lra. split; ring.
Qed.

(** C5, as the code has it. For every position sequence with at least two
    positions: when an elevation sequence is supplied, [elevationGain] is the
    sum of the positive deltas between consecutive elevation samples and
    [elevationLoss] the sum of the absolute values of the negative deltas,
    whatever the number of positions (both sums are empty, hence 0, below
    two samples); for the samples 100, 150, 120, 140 they are 70 and 30; and
    with no elevation sequence both are 0. *)
Theorem C5_elevation_gain_and_loss
    (getTime : string -> R) (positions : list (Position R))
    (elevations : option (list (ElevationPoint R))) :
  (2 <= List.length positions)%nat ->
  exists stats,
    calculateTrailStats getTime positions elevations = Some stats /\
    match elevations with
    | Some els =>
        elevationGain stats = gainOf els /\
        elevationLoss stats = lossOf els /\
        ((List.length els < 2)%nat ->
         elevationGain stats = 0%R /\ elevationLoss stats = 0%R) /\
        (els = fourSamples ->
         elevationGain stats = 70%R /\ elevationLoss stats = 30%R)
    | None => elevationGain stats = 0%R /\ elevationLoss stats = 0%R
    end.
Proof.
  intros Hlen.
  destruct (calculateTrailStats_exact getTime positions elevations Hlen)
    as (stats & E & _ & Hgl & _).
  exists stats. split; [exact E|].
  destruct elevations as [els|]; injection Hgl as Hg Hl.
  - rewrite Hg, Hl. split; [reflexivity|]. split; [reflexivity|]. split.
    + intros Hshort.
      destruct els as [|e [|e' els]]; simpl in Hshort; try lia;
        split; reflexivity.
    + intros ->. apply fourSamples_gain_loss.
  - split; assumption.
Qed.

Lemma C5_witness :
  (2 <= List.length equatorTrail)%nat /\
  exists stats,
    calculateTrailStats (fun _ => 0%R) equatorTrail (Some fourSamples)
    = Some stats /\
    elevationGain stats = 70%R /\ elevationLoss stats = 30%R.
Proof.
  split.
  - simpl. lia.
  - destruct (C5_elevation_gain_and_loss (fun _ => 0%R) equatorTrail
                (Some fourSamples)) as (stats & E & _ & _ & _ & H).
    + simpl. lia.
    + exists stats. split; [exact E | exact (H eq_refl)].
Defined.

(** Against C5 as stated: with fewer than two positions the elevation samples
    are not read, and the gain for 100, 150, 120, 140 is 0, not 70. *)
Lemma C5_counterexample :
  exists stats,
    calculateTrailStats (fun _ => 0%R) [] (Some fourSamples) = Some stats /\
    (2 <= List.length fourSamples)%nat /\
    elevationGain stats = 0%R /\ elevationLoss stats = 0%R /\
    elevationGain stats <> gainOf fourSamples /\
    elevationLoss stats <> lossOf fourSamples.
Proof.
  exists zeroStats. destruct fourSamples_gain_loss as [Hg Hl].
  rewrite Hg, Hl. cbn [zeroStats elevationGain elevationLoss lit R_JsNumber].
  repeat split; try reflexivity; try (simpl; lia); lra.
Qed.

Lemma equatorTrail_distance (getTime : string -> R)
    (elevations : option (list (ElevationPoint R))) :
  exists stats,
    calculateTrailStats getTime equatorTrail elevations = Some stats /\
    distance stats = (6371000 * PI)%R /\
    (elevationGain stats, elevationLoss stats)
    = match elevations with
      | Some els => (gainOf els, lossOf els)
      | None => (0%R, 0%R)
      end /\
    avgGrade stats
    = if Rlt_dec 0 (distance stats)
      then ((elevationGain stats - elevationLoss stats) / distance stats * 100)%R
      else 0%R.
Proof.
  destruct (calculateTrailStats_exact getTime equatorTrail elevations)
    as (stats & E & Hd & Hgl & Hg); [simpl; lia|].
  exists stats. repeat split; try assumption.
  rewrite Hd. unfold equatorTrail, positionAt, legLength.
  cbn [consecutivePairs map Rsum fold_right fst snd latitude longitude].
  rewrite haversine_equator_half_turn. ring.
Qed.

(** C6. For every number type in which [0 > 0] is false (binary64 and the
    reals are such) and for every input, [calculateTrailStats] returns, and
    [avgGrade] is [(elevationGain - elevationLoss) / distance * 100] when the
    test [distance > 0] holds and 0 when it does not, so 0 when [distance] is
    0: the division is guarded.  The three fields it is computed from are the
    totals of the two loops.  The grade may be negative: in exact
    arithmetic, over half a turn of the equator with the elevations 100 and
    50, the loss exceeds the gain and [avgGrade < 0]. *)
Theorem C6_average_grade
    (num : Type) (JN : JsNumber num) (JM : JsMath num)
    (getTime : string -> num) (positions : list (Position num))
    (elevations : option (list (ElevationPoint num))) :
  gt (lit 0) (lit 0) = false ->
  (exists stats,
     calculateTrailStats getTime positions elevations = Some stats /\
     (gt (distance stats) (lit 0) = true ->
      avgGrade stats
      = mul (div (sub (elevationGain stats) (elevationLoss stats))
                 (distance stats))
            (lit 100)) /\
     (gt (distance stats) (lit 0) = false -> avgGrade stats = lit 0) /\
     (distance stats = lit 0 -> avgGrade stats = lit 0) /\
     ((2 <= List.length positions)%nat ->
      distance stats
      = fold_left addLeg (consecutivePairs positions) (lit 0) /\
      (elevationGain stats, elevationLoss stats) = gainLossOf elevations))
  /\
  (exists stats,
     calculateTrailStats (fun _ => 0%R) equatorTrail
                         (Some [sampleAt 100%R; sampleAt 50%R]) = Some stats /\
     (elevationGain stats < elevationLoss stats)%R /\
     (avgGrade stats < 0)%R).
Proof.
  intros Hzero. split.
  - destruct (le_lt_dec 2 (List.length positions)) as [Hlen|Hlen].
    + destruct (calculateTrailStats_long getTime positions elevations Hlen)
        as (first & last & _ & _ & E).
      cbv zeta in E. eexists. split; [exact E|].
      cbn [distance avgGrade elevationGain elevationLoss].
      split; [|split; [|split]].
      * intros ->. reflexivity.
      * intros ->. reflexivity.
      * intros ->. rewrite Hzero. reflexivity.
      * intros _. split; [reflexivity|].
        destruct (gainLossOf elevations); reflexivity.
    + exists zeroStats. split.
      * apply calculateTrailStats_short. exact Hlen.
      * cbn [zeroStats distance avgGrade elevationGain elevationLoss].
        split; [|split; [|split]]; try reflexivity.
        -- rewrite Hzero. discriminate.
        -- intros Hge. lia.
  - destruct (equatorTrail_distance (fun _ => 0%R)
                (Some [sampleAt 100%R; sampleAt 50%R]))
      as (stats & E & Hd & Hgl & Hg).
    exists stats. split; [exact E|].
    assert (Hgain : gainOf [sampleAt 100%R; sampleAt 50%R] = 0%R).
    { unfold gainOf, deltas, sampleAt, positiveDelta.
      cbn [consecutivePairs map elevation fst snd Rsum fold_right].
      destruct (Rlt_dec 0 (50 - 100)); lra. }
    assert (Hloss : lossOf [sampleAt 100%R; sampleAt 50%R] = 50%R).
    { unfold lossOf, deltas, sampleAt, negativeDeltaAbs.
      cbn [consecutivePairs map elevation fst snd Rsum fold_right].
      destruct (Rlt_dec (50 - 100) 0); [|lra].
      rewrite Rabs_left by lra. ring. }
    injection Hgl as Hg' Hl'. rewrite Hgain in Hg'. rewrite Hloss in Hl'.
    assert (Hpos : (0 < distance stats)%R).
    { rewrite Hd. pose proof PI_gt_3. lra. }
    split; [lra|]. rewrite Hg.
    destruct (Rlt_dec 0 (distance stats)); [|lra].
    rewrite Hg', Hl'.
    assert (H : (0 < 50 / distance stats)%R)
      by (apply Rdiv_lt_0_compat; lra).
    replace ((0 - 50) / distance stats)%R
      with (- (50 / distance stats))%R by (field; lra).
    lra.
Qed.

Lemma C6_witness :
  @gt PrimFloat.float _ (lit 0) (lit 0) = false /\
  forall (JM : JsMath PrimFloat.float) (getTime : string -> PrimFloat.float),
  exists stats,
    calculateTrailStats getTime [] (Some fourSamples64) = Some stats /\
    avgGrade stats = lit 0.
Proof.
  assert (Hzero : @gt PrimFloat.float _ (lit 0) (lit 0) = false)
    by reflexivity.
  split.
  - exact Hzero.
  - intros JM getTime.
    destruct (@C6_average_grade _ _ JM getTime [] (Some fourSamples64)
                Hzero) as [(stats & E & _ & _ & H & _) _].
    exists stats. split; [exact E|]. apply H.
    unfold calculateTrailStats in E. cbn in E. injection E as <-.
    reflexivity.
Defined.

(** C7. For every position sequence with fewer than two positions, whatever
    the elevations, [calculateTrailStats] returns (it does not throw) a
    [TrailStats] whose six fields are 0.  This holds for every number type,
    binary64 included. *)
Theorem C7_fewer_than_two_positions
    (num : Type) (JN : JsNumber num) (JM : JsMath num)
    (getTime : string -> num) (positions : list (Position num))
    (elevations : option (list (ElevationPoint num))) :
  (List.length positions < 2)%nat ->
  exists stats,
    calculateTrailStats getTime positions elevations = Some stats /\
    distance stats = lit 0 /\ duration stats = lit 0 /\
    avgSpeed stats = lit 0 /\ elevationGain stats = lit 0 /\
    elevationLoss stats = lit 0 /\ avgGrade stats = lit 0.
Proof.
  intros Hlen. exists zeroStats. split.
  - apply calculateTrailStats_short. exact Hlen.
  - repeat split.
Qed.

Lemma C7_witness :
  let p1 := positionAt "2024-01-01T00:00:00Z" 48%R 16%R in
  ((List.length (@nil (Position R)) < 2)%nat /\
   exists stats,
     calculateTrailStats (fun _ => 0%R) [] (Some fourSamples) = Some stats /\
     distance stats = lit 0 /\ duration stats = lit 0 /\
     avgSpeed stats = lit 0 /\ elevationGain stats = lit 0 /\
     elevationLoss stats = lit 0 /\ avgGrade stats = lit 0) /\
  ((List.length [p1] < 2)%nat /\
   exists stats,
     calculateTrailStats (fun _ => 0%R) [p1] None = Some stats /\
     distance stats = lit 0 /\ duration stats = lit 0 /\
     avgSpeed stats = lit 0 /\ elevationGain stats = lit 0 /\
     elevationLoss stats = lit 0 /\ avgGrade stats = lit 0).
Proof.
  cbv zeta. split; split.
  - simpl. lia.
  - apply (@C7_fewer_than_two_positions R R_JsNumber R_JsMath (fun _ => 0%R)). simpl. lia.
  - simpl. lia.
  - apply (@C7_fewer_than_two_positions R R_JsNumber R_JsMath (fun _ => 0%R)). simpl. lia.
Defined.

(** Against C9 as stated: shifting both coordinates of every position by 90
    degrees moves a half turn along the equator (about 20,015 km) onto the
    north pole (0 m). *)
Lemma C9_counterexample :
  exists before after,
    calculateTrailStats (fun _ => 0%R) equatorTrail None = Some before /\
    calculateTrailStats (fun _ => 0%R) (map (shift 90%R 90%R) equatorTrail)
                        None = Some after /\
    distance before = (6371000 * PI)%R /\
    distance after = 0%R /\
    (19000000 < Rabs (distance before - distance after))%R.
Proof.
  destruct (equatorTrail_distance (fun _ => 0%R) None)
    as (before & Eb & Hb & _).
  destruct (calculateTrailStats_exact (fun _ => 0%R)
              (map (shift 90%R 90%R) equatorTrail) None)
    as (after & Ea & Ha & _); [simpl; lia|].
  assert (Hzero : distance after = 0%R).
  { rewrite Ha. unfold equatorTrail, positionAt, shift, legLength.
    cbn [consecutivePairs map Rsum fold_right fst snd latitude longitude
         add R_JsNumber].
    replace (0 + 90)%R with 90%R by ring.
    replace (-90 + 90)%R with 0%R by ring.
    replace (90 + 90)%R with 180%R by ring.
    rewrite haversine_pole. ring. }
  exists before, after. repeat split; try assumption.
  rewrite Hb, Hzero. pose proof PI_gt_3.
  rewrite Rabs_right; lra.
Qed.

(** [calculateHaversineDistance] reads the two longitudes through their
    difference only. *)
Lemma haversine_longitude_steps (num : Type) (JN : JsNumber num)
    (JM : JsMath num) (lat1 lng1 lat2 lng2 lng1' lng2' : num) :
  sub lng2' lng1' = sub lng2 lng1 ->
  calculateHaversineDistance lat1 lng1' lat2 lng2'
  = calculateHaversineDistance lat1 lng1 lat2 lng2.
Proof.
  intros H. unfold calculateHaversineDistance. rewrite H. reflexivity.
Qed.

Lemma distance_depends_on_longitude_steps (num : Type) (JN : JsNumber num)
    (JM : JsMath num) (getTime : string -> num)
    (positions : list (Position num))
    (elevations : option (list (ElevationPoint num))) (offset : num) :
  keepsLongitudeSteps offset positions ->
  option_map (@distance num)
    (calculateTrailStats getTime (map (shiftLongitude offset) positions)
                         elevations)
  = option_map (@distance num)
      (calculateTrailStats getTime positions elevations).
Proof.
  intros Hsteps.
  destruct (le_lt_dec 2 (List.length positions)) as [Hlen|Hlen].
  - destruct (calculateTrailStats_long getTime positions elevations Hlen)
      as (f & l & _ & _ & E).
    destruct (calculateTrailStats_long getTime
                (map (shiftLongitude offset) positions) elevations)
      as (f' & l' & _ & _ & E'); [rewrite length_map; exact Hlen|].
    cbv zeta in E, E'. rewrite E, E'. cbn [option_map distance]. f_equal.
    clear - Hsteps. generalize (@lit num _ 0).
    induction positions as [|p [|q rest] IH]; intros z; try reflexivity.
    cbn [map consecutivePairs fold_left] in *. rewrite IH.
    + f_equal. unfold addLeg, shiftLongitude.
      cbn [fst snd latitude longitude].
      rewrite (@haversine_longitude_steps num JN JM (latitude p)
                 (longitude p) (latitude q) (longitude q));
        [reflexivity|].
      apply Hsteps. left. reflexivity.
    + intros p' q' Hin. apply Hsteps. right. exact Hin.
  - rewrite !calculateTrailStats_short;
      [reflexivity | exact Hlen | rewrite length_map; exact Hlen].
Qed.

(** In exact arithmetic every offset keeps the differences. *)
Lemma keepsLongitudeSteps_exact (offset : R) (positions : list (Position R)) :
  keepsLongitudeSteps offset positions.
Proof.
  intros p q _. cbn [add sub R_JsNumber]. ring.
Qed.

(** C9, as the code has it. The distance depends on the longitudes through
    the differences between consecutive positions only, and not so on the
    latitudes.  For every number type, adding one offset to the longitude of
    every position (the latitudes unchanged) leaves the distance unchanged
    whenever the shifted longitudes have the same consecutive differences as
    computed.  In exact arithmetic every offset keeps the differences.  In
    binary64 not every offset does: the offset 2^62 absorbs the longitudes
    -90 and 90, whose shifted difference is 0 instead of 180. *)
Theorem C9_longitude_shift_invariance :
  (forall (num : Type) (JN : JsNumber num) (JM : JsMath num)
          (getTime : string -> num) (positions : list (Position num))
          (elevations : option (list (ElevationPoint num))) (offset : num),
     keepsLongitudeSteps offset positions ->
     option_map (@distance num)
       (calculateTrailStats getTime (map (shiftLongitude offset) positions)
                            elevations)
     = option_map (@distance num)
         (calculateTrailStats getTime positions elevations)) /\
  (forall (offset : R) (positions : list (Position R)),
     keepsLongitudeSteps offset positions) /\
  (let offset : PrimFloat.float := lit 4611686018427387904 in
   sub (add (lit 90) offset) (add (lit (-90)) offset) = lit 0 /\
   sub (lit 90) (lit (-90)) = (lit 180 : PrimFloat.float) /\
   ~ keepsLongitudeSteps offset
       [positionAt "2024-01-01T00:00:00Z" (lit 0) (lit (-90));
        positionAt "2024-01-01T00:01:00Z" (lit 0) (lit 90)]).
Proof.
  split; [|split].
  - apply distance_depends_on_longitude_steps.
  - apply keepsLongitudeSteps_exact.
  - cbv zeta. split; [vm_compute; reflexivity|].
    split; [vm_compute; reflexivity|].
    intros H.
    specialize (H _ _ (or_introl eq_refl)). vm_compute in H.
    discriminate H.
Qed.

Lemma C9_witness :
  keepsLongitudeSteps (lit 360) twoPositions64 /\
  forall (JM : JsMath PrimFloat.float) (getTime : string -> PrimFloat.float),
    option_map (@distance PrimFloat.float)
      (calculateTrailStats getTime
         (map (shiftLongitude (lit 360)) twoPositions64) None)
    = option_map (@distance PrimFloat.float)
        (calculateTrailStats getTime twoPositions64 None).
Proof.
  assert (H : keepsLongitudeSteps (lit 360) twoPositions64).
  { intros p q [E|[]]. injection E as <- <-. vm_compute. reflexivity. }
  split; [exact H|].
  intros JM getTime.
  exact (proj1 C9_longitude_shift_invariance _ _ JM getTime twoPositions64
               None (lit 360) H).
Defined.

(** ** For every number type *)

(** X2. Whatever the number type (binary64 included), with two positions or more
    [calculateTrailStats] returns and its [distance] is the total of the loop
    [totalDistance += calculateHaversineDistance(...)] run from 0 over the
    consecutive pairs of positions, in order. *)
Theorem distance_is_left_fold_of_legs
    (num : Type) (JN : JsNumber num) (JM : JsMath num)
    (getTime : string -> num) (positions : list (Position num))
    (elevations : option (list (ElevationPoint num))) :
  (2 <= List.length positions)%nat ->
  exists stats,
    calculateTrailStats getTime positions elevations = Some stats /\
    distance stats
    = fold_left
        (fun total pq =>
           add total
               (calculateHaversineDistance
                  (latitude (fst pq)) (longitude (fst pq))
                  (latitude (snd pq)) (longitude (snd pq))))
        (consecutivePairs positions) (lit 0).
Proof.
  intros Hlen.
  destruct (calculateTrailStats_long getTime positions elevations Hlen)
    as (first & last & _ & _ & E).
  cbv zeta in E. eexists. split; [exact E | reflexivity].
Qed.

Lemma distance_is_left_fold_of_legs_witness :
  (2 <= List.length equatorTrail)%nat /\
  exists stats,
    calculateTrailStats (fun _ => 0%R) equatorTrail None = Some stats /\
    distance stats
    = fold_left
        (fun total pq =>
           add total
               (calculateHaversineDistance
                  (latitude (fst pq)) (longitude (fst pq))
                  (latitude (snd pq)) (longitude (snd pq))))
        (consecutivePairs equatorTrail) (lit 0).
Proof.
  split.
  - simpl. lia.
  - apply (@distance_is_left_fold_of_legs R R_JsNumber R_JsMath).
    simpl. lia.
Defined.

(** X3. [calculateTrailStats] never throws: every index it reads is in
    range. *)
Theorem calculateTrailStats_returns
    (num : Type) (JN : JsNumber num) (JM : JsMath num)
    (getTime : string -> num) (positions : list (Position num))
    (elevations : option (list (ElevationPoint num))) :
  exists stats,
    calculateTrailStats getTime positions elevations = Some stats.
Proof.
  destruct (le_lt_dec 2 (List.length positions)) as [Hlen|Hlen].
  - destruct (calculateTrailStats_long getTime positions elevations Hlen)
      as (first & last & _ & _ & E).
    cbv zeta in E. eexists. exact E.
  - exists zeroStats. apply calculateTrailStats_short. exact Hlen.
Qed.

(** In binary64, whatever [Math.sin], [Math.cos], [Math.sqrt], [Math.atan2]
    and the date parser return: for the samples 100, 150, 120, 140 supplied
    with two positions, [elevationGain] is exactly 70 and [elevationLoss]
    exactly 30. *)
Theorem elevation_example_binary64
    (JM : JsMath PrimFloat.float) (getTime : string -> PrimFloat.float) :
  exists stats,
    calculateTrailStats getTime twoPositions64 (Some fourSamples64)
    = Some stats /\
    elevationGain stats = lit 70 /\ elevationLoss stats = lit 30.
Proof.
  destruct (calculateTrailStats_long getTime twoPositions64
              (Some fourSamples64)) as (first & last & _ & _ & E).
  - simpl. lia.
  - cbv zeta in E. eexists. split; [exact E|].
    cbn [elevationGain elevationLoss]. split; vm_compute; reflexivity.
Qed.

(* ================================================================== *)
(** * Trail analytics: further properties, in exact arithmetic *)

Section HaversineFacts.
Local Open Scope R_scope.

Lemma haversineFormula_sym (lat1 lng1 lat2 lng2 : R) :
  haversineFormula lat1 lng1 lat2 lng2 = haversineFormula lat2 lng2 lat1 lng1.
Proof.
  unfold haversineFormula. cbv zeta.
  assert (Hsq : forall u v, (sin ((u - v) / 2))² = (sin ((v - u) / 2))²).
  { intros u v. replace ((u - v) / 2) with (- ((v - u) / 2)) by field.
    rewrite sin_neg. unfold Rsqr. ring. }
  rewrite (Hsq (lat2 * (PI / 180)) (lat1 * (PI / 180))).
  rewrite (Hsq (lng2 * (PI / 180)) (lng1 * (PI / 180))).
  rewrite (Rmult_comm (cos (lat1 * (PI / 180)))). reflexivity.
Qed.

Lemma haversineFormula_same (lat lng : R) :
  haversineFormula lat lng lat lng = 0.
Proof.
  unfold haversineFormula. cbv zeta.
  replace ((lat * (PI / 180) - lat * (PI / 180)) / 2) with 0 by field.
  replace ((lng * (PI / 180) - lng * (PI / 180)) / 2) with 0 by field.
  rewrite sin_0. unfold Rsqr.
  replace (0 * 0 + cos (lat * (PI / 180)) * cos (lat * (PI / 180)) * (0 * 0))
    with 0 by ring.
  rewrite sqrt_0, asin_0. ring.
Qed.

(** The arc [2 * asin (sqrt ((sin y)²))] is [2 * |y|] up to a quarter turn. *)
Lemma asin_sqrt_sin_sqr (y : R) :
  Rabs y <= PI / 2 -> asin (sqrt (sin y)²) = Rabs y.
Proof.
  intros Hy. rewrite sqrt_Rsqr_abs.
  assert (E : Rabs (sin y) = sin (Rabs y)).
  { unfold Rabs at 2. destruct (Rcase_abs y) as [Hneg|Hpos].
    - rewrite sin_neg. apply Rabs_left.
      apply sin_lt_0_var; [|exact Hneg].
      rewrite Rabs_left in Hy by exact Hneg. pose proof PI_RGT_0. lra.
    - apply Rabs_right. apply Rle_ge. apply sin_ge_0; [lra|].
      rewrite Rabs_right in Hy by exact Hpos. pose proof PI_RGT_0. lra. }
  rewrite E. apply asin_sin. pose proof (Rabs_pos y). lra.
Qed.

Lemma half_angle_bound (d : R) :
  Rabs d <= 180 -> Rabs ((d * (PI / 180)) / 2) <= PI / 2.
Proof.
  intros Hd. pose proof PI_RGT_0.
  replace ((d * (PI / 180)) / 2) with (d * (PI / 360)) by field.
  rewrite Rabs_mult, (Rabs_right (PI / 360)) by lra.
  replace (PI / 2) with (180 * (PI / 360)) by field.
  apply Rmult_le_compat_r; lra.
Qed.
End HaversineFacts.

(** X13. In exact arithmetic [calculateHaversineDistance] is symmetric in its
    two points, and zero between a point and itself. *)
Theorem haversine_distance_is_symmetric
    (lat1 lng1 lat2 lng2 : R) :
  calculateHaversineDistance lat1 lng1 lat2 lng2
  = calculateHaversineDistance lat2 lng2 lat1 lng1 /\
  calculateHaversineDistance lat1 lng1 lat1 lng1 = 0%R.
Proof.
  rewrite !calculateHaversineDistance_formula. split.
  - apply haversineFormula_sym.
  - apply haversineFormula_same.
Qed.

(** X14. Along a meridian (equal longitudes) and along the equator,
    [calculateHaversineDistance] is the arc length: the difference in degrees,
    at most 180, times [6371000 * PI / 180] metres. *)
Theorem haversine_distance_on_meridian_and_equator :
  (forall lat1 lat2 lng : R,
     (Rabs (lat2 - lat1) <= 180)%R ->
     calculateHaversineDistance lat1 lng lat2 lng
     = (6371000 * (PI / 180) * Rabs (lat2 - lat1))%R) /\
  (forall lng1 lng2 : R,
     (Rabs (lng2 - lng1) <= 180)%R ->
     calculateHaversineDistance 0%R lng1 0%R lng2
     = (6371000 * (PI / 180) * Rabs (lng2 - lng1))%R).
Proof.
  assert (Harc : forall d : R,
             (Rabs d <= 180)%R ->
             (2 * 6371000 * asin (sqrt (sin ((d * (PI / 180)) / 2))²)
              = 6371000 * (PI / 180) * Rabs d)%R).
  { intros d Hd. rewrite asin_sqrt_sin_sqr by (apply half_angle_bound, Hd).
    pose proof PI_RGT_0.
    replace ((d * (PI / 180)) / 2)%R with (d * (PI / 360))%R by field.
    rewrite Rabs_mult, (Rabs_right (PI / 360)%R) by lra. field. }
  split.
  - intros lat1 lat2 lng Hd.
    rewrite calculateHaversineDistance_formula. unfold haversineFormula.
    cbv zeta. rewrite <- (Harc _ Hd).
    replace ((lng * (PI / 180) - lng * (PI / 180)) / 2)%R with 0%R by field.
    replace ((lat2 * (PI / 180) - lat1 * (PI / 180)) / 2)%R
      with (((lat2 - lat1) * (PI / 180)) / 2)%R by field.
    rewrite sin_0. do 3 f_equal. unfold Rsqr. ring.
  - intros lng1 lng2 Hd.
    rewrite calculateHaversineDistance_formula. unfold haversineFormula.
    cbv zeta. rewrite <- (Harc _ Hd).
    replace ((0 * (PI / 180) - 0 * (PI / 180)) / 2)%R with 0%R by field.
    replace (0 * (PI / 180))%R with 0%R by ring.
    replace ((lng2 * (PI / 180) - lng1 * (PI / 180)) / 2)%R
      with (((lng2 - lng1) * (PI / 180)) / 2)%R by field.
    rewrite sin_0, cos_0. do 3 f_equal. unfold Rsqr. ring.
Qed.

(** ** Sums over consecutive pairs *)

Lemma consecutivePairs_app {A : Type} (l1 : list A) (x : A) (l2 : list A) :
  consecutivePairs (l1 ++ x :: l2)
  = consecutivePairs (l1 ++ [x]) ++ consecutivePairs (x :: l2).
Proof.
  induction l1 as [|a l1 IH]; [reflexivity|].
  destruct l1 as [|b l1]; [reflexivity|].
  change (consecutivePairs ((a :: b :: l1) ++ x :: l2))
    with ((a, b) :: consecutivePairs ((b :: l1) ++ x :: l2)).
  change (consecutivePairs ((a :: b :: l1) ++ [x]))
    with ((a, b) :: consecutivePairs ((b :: l1) ++ [x])).
  rewrite IH. reflexivity.
Qed.

Lemma consecutivePairs_rev {A : Type} (l : list A) :
  consecutivePairs (rev l)
  = rev (map (fun ab => (snd ab, fst ab)) (consecutivePairs l)).
Proof.
  induction l as [|a l IH]; [reflexivity|].
  destruct l as [|b l]; [reflexivity|].
  change (consecutivePairs (a :: b :: l))
    with ((a, b) :: consecutivePairs (b :: l)).
  cbn [map rev fst snd]. rewrite <- IH.
  change (rev (a :: b :: l)) with ((rev l ++ [b]) ++ [a]).
  rewrite <- app_assoc. cbn [app].
  rewrite consecutivePairs_app. reflexivity.
Qed.

Lemma last_default_irrelevant {A : Type} (l : list A) (a d d' : A) :
  last (a :: l) d = last (a :: l) d'.
Proof.
  revert a. induction l as [|b l IH]; intros a; [reflexivity|].
  change (last (a :: b :: l) d) with (last (b :: l) d).
  change (last (a :: b :: l) d') with (last (b :: l) d').
  apply IH.
Qed.

Section SumFacts.
Local Open Scope R_scope.

Lemma Rsum_app (l1 l2 : list R) : Rsum (l1 ++ l2) = Rsum l1 + Rsum l2.
Proof.
  unfold Rsum. induction l1 as [|x l1 IH]; simpl; [ring | rewrite IH; ring].
Qed.

Lemma Rsum_rev (l : list R) : Rsum (rev l) = Rsum l.
Proof.
  induction l as [|x l IH]; [reflexivity|].
  cbn [rev]. rewrite Rsum_app, IH. unfold Rsum. simpl. ring.
Qed.

Lemma positive_minus_negative (d : R) :
  positiveDelta d - negativeDeltaAbs d = d.
Proof.
  unfold positiveDelta, negativeDeltaAbs.
  destruct (Rlt_dec 0 d), (Rlt_dec d 0); try lra.
  rewrite Rabs_left by lra. ring.
Qed.

Lemma positiveDelta_opp (d : R) : positiveDelta (- d) = negativeDeltaAbs d.
Proof.
  unfold positiveDelta, negativeDeltaAbs.
  destruct (Rlt_dec 0 (- d)), (Rlt_dec d 0); try lra.
  rewrite Rabs_left by lra. reflexivity.
Qed.

Lemma negativeDeltaAbs_opp (d : R) : negativeDeltaAbs (- d) = positiveDelta d.
Proof.
  unfold positiveDelta, negativeDeltaAbs.
  destruct (Rlt_dec (- d) 0), (Rlt_dec 0 d); try lra.
  rewrite Rabs_left by lra. ring.
Qed.

Lemma positiveDelta_nonneg (d : R) : 0 <= positiveDelta d.
Proof. unfold positiveDelta. destruct (Rlt_dec 0 d); lra. Qed.

Lemma negativeDeltaAbs_nonneg (d : R) : 0 <= negativeDeltaAbs d.
Proof.
  unfold negativeDeltaAbs. destruct (Rlt_dec d 0); [apply Rabs_pos | lra].
Qed.

Lemma Rsum_map_nonneg {A : Type} (f : A -> R) (l : list A) :
  (forall a, 0 <= f a) -> 0 <= Rsum (map f l).
Proof.
  intros Hf. induction l as [|a l IH]; unfold Rsum in *; simpl.
  - lra.
  - pose proof (Hf a). lra.
Qed.

(** The deltas telescope. *)
Lemma Rsum_deltas (first : ElevationPoint R) (rest : list (ElevationPoint R)) :
  Rsum (deltas (first :: rest))
  = elevation (last (first :: rest) first) - elevation first.
Proof.
  revert first. induction rest as [|e rest IH]; intros first.
  - unfold deltas, Rsum. simpl. ring.
  - change (deltas (first :: e :: rest))
      with ((elevation e - elevation first) :: deltas (e :: rest)).
    change (Rsum ((elevation e - elevation first) :: deltas (e :: rest)))
      with (elevation e - elevation first + Rsum (deltas (e :: rest))).
    rewrite IH.
    change (last (first :: e :: rest) first) with (last (e :: rest) first).
    rewrite (last_default_irrelevant rest e first e). ring.
Qed.
End SumFacts.

Section TrailStatsFacts.
Variable getTime : string -> R.

Local Open Scope R_scope.

(** The distance of the result, for every input. *)
Lemma calculateTrailStats_distance (positions : list (Position R))
    (elevations : option (list (ElevationPoint R))) :
  exists stats,
    calculateTrailStats getTime positions elevations = Some stats /\
    distance stats = Rsum (map legLength (consecutivePairs positions)).
Proof.
  destruct (le_lt_dec 2 (List.length positions)) as [Hlen|Hlen].
  - destruct (calculateTrailStats_exact getTime positions elevations Hlen)
      as (stats & E & Hd & _).
    exists stats. split; assumption.
  - exists zeroStats. split; [apply calculateTrailStats_short, Hlen|].
    destruct positions as [|p [|q positions]]; simpl in Hlen; try lia;
      reflexivity.
Qed.

Lemma legLength_swap (pq : Position R * Position R) :
  legLength (snd pq, fst pq) = legLength pq.
Proof. unfold legLength. cbn [fst snd]. apply haversineFormula_sym. Qed.
End TrailStatsFacts.

(** X15. In exact arithmetic, for every input [elevationGain] and
    [elevationLoss] are not negative, and [duration] is not negative when the
    first timestamp is not after the last. *)
Theorem gain_loss_and_duration_are_not_negative
    (getTime : string -> R) (positions : list (Position R))
    (elevations : option (list (ElevationPoint R))) :
  exists stats,
    calculateTrailStats getTime positions elevations = Some stats /\
    (0 <= elevationGain stats)%R /\
    (0 <= elevationLoss stats)%R /\
    (forall first last,
       nth_error positions 0 = Some first ->
       nth_error positions (List.length positions - 1) = Some last ->
       (getTime (timestamp first) <= getTime (timestamp last))%R ->
       (0 <= duration stats)%R).
Proof.
  destruct (le_lt_dec 2 (List.length positions)) as [Hlen|Hlen].
  - destruct (calculateTrailStats_long getTime positions elevations Hlen)
      as (first & last & Hfirst & Hlast & E).
    cbv zeta in E. eexists. split; [exact E|].
    cbn [duration elevationGain elevationLoss].
    rewrite gainLossOf_exact.
    cbn [lit add sub mul div gt R_JsNumber].
    split; [|split].
    + destruct elevations as [els|]; cbn [fst]; [|lra].
      apply Rsum_map_nonneg, positiveDelta_nonneg.
    + destruct elevations as [els|]; cbn [snd]; [|lra].
      apply Rsum_map_nonneg, negativeDeltaAbs_nonneg.
    + intros first' last' Hf' Hl' Hle.
      rewrite Hfirst in Hf'. rewrite Hlast in Hl'.
      injection Hf' as <-. injection Hl' as <-.
      unfold Rdiv. apply Rmult_le_pos; lra.
  - exists zeroStats. split; [apply calculateTrailStats_short, Hlen|].
    cbn [zeroStats duration elevationGain elevationLoss lit R_JsNumber].
    repeat split; intros; lra.
Qed.

(** X16. The net elevation change: with at least two positions and at least one
    elevation sample, [elevationGain - elevationLoss] is the elevation of the
    last sample minus the elevation of the first. *)
Theorem gain_minus_loss_is_net_elevation_change
    (getTime : string -> R) (positions : list (Position R))
    (first : ElevationPoint R) (rest : list (ElevationPoint R)) :
  (2 <= List.length positions)%nat ->
  exists stats,
    calculateTrailStats getTime positions (Some (first :: rest)) = Some stats /\
    (elevationGain stats - elevationLoss stats
     = elevation (last (first :: rest) first) - elevation first)%R.
Proof.
  intros Hlen.
  destruct (calculateTrailStats_exact getTime positions
              (Some (first :: rest)) Hlen) as (stats & E & _ & Hgl & _).
  exists stats. split; [exact E|]. injection Hgl as -> ->.
  rewrite <- Rsum_deltas. unfold gainOf, lossOf.
  induction (deltas (first :: rest)) as [|d ds IH]; unfold Rsum in *; simpl.
  - ring.
  - pose proof (positive_minus_negative d). lra.
Qed.

Lemma gain_minus_loss_witness :
  (2 <= List.length equatorTrail)%nat /\
  exists stats,
    calculateTrailStats (fun _ => 0%R) equatorTrail (Some fourSamples)
    = Some stats /\
    (elevationGain stats - elevationLoss stats = 140 - 100)%R.
Proof.
  split.
  - simpl. lia.
  - apply (gain_minus_loss_is_net_elevation_change (fun _ => 0%R)
             equatorTrail (sampleAt 100%R)
             [sampleAt 150%R; sampleAt 120%R; sampleAt 140%R]).
    simpl. lia.
Defined.

(** X17. Walking the trail backwards: on the reversed positions and the reversed
    elevation samples, [distance] is the same and [elevationGain] and
    [elevationLoss] change places. *)
Theorem reversed_trail_swaps_gain_and_loss
    (getTime : string -> R) (positions : list (Position R))
    (elevations : list (ElevationPoint R)) :
  exists forward backward,
    calculateTrailStats getTime positions (Some elevations) = Some forward /\
    calculateTrailStats getTime (rev positions) (Some (rev elevations))
    = Some backward /\
    distance backward = distance forward /\
    elevationGain backward = elevationLoss forward /\
    elevationLoss backward = elevationGain forward.
Proof.
  assert (Hd : Rsum (map legLength (consecutivePairs (rev positions)))
               = Rsum (map legLength (consecutivePairs positions))).
  { rewrite consecutivePairs_rev, map_rev, Rsum_rev, map_map.
    f_equal. apply map_ext. intros pq. apply legLength_swap. }
  assert (Hdeltas : deltas (rev elevations)
                    = rev (map Ropp (deltas elevations))).
  { unfold deltas. rewrite consecutivePairs_rev, map_rev, !map_map.
    f_equal. apply map_ext. intros ee. cbn [fst snd]. ring. }
  destruct (le_lt_dec 2 (List.length positions)) as [Hlen|Hlen].
  - destruct (calculateTrailStats_exact getTime positions (Some elevations)
                Hlen) as (forward & Ef & Hdf & Hglf & _).
    destruct (calculateTrailStats_exact getTime (rev positions)
                (Some (rev elevations))) as (backward & Eb & Hdb & Hglb & _);
      [rewrite length_rev; exact Hlen|].
    exists forward, backward. split; [exact Ef|]. split; [exact Eb|].
    injection Hglf as Hgf Hlf. injection Hglb as Hgb Hlb.
    split; [rewrite Hdb, Hdf; exact Hd|].
    rewrite Hgb, Hlb, Hgf, Hlf. unfold gainOf, lossOf.
    rewrite Hdeltas, !map_rev, !Rsum_rev, !map_map.
    split; f_equal; apply map_ext; intros d.
    + apply positiveDelta_opp.
    + apply negativeDeltaAbs_opp.
  - exists zeroStats, zeroStats.
    rewrite !calculateTrailStats_short;
      [|rewrite length_rev; exact Hlen | exact Hlen].
    repeat split.
Qed.

(** X18. Distances add up at a junction: the distance over a trail is the
    distance up to any of its positions plus the distance from that position
    on. *)
Theorem distance_adds_at_a_junction
    (getTime : string -> R) (before : list (Position R)) (junction : Position R)
    (after : list (Position R))
    (elevations e1 e2 : option (list (ElevationPoint R))) :
  exists whole part1 part2,
    calculateTrailStats getTime (before ++ junction :: after) elevations
    = Some whole /\
    calculateTrailStats getTime (before ++ [junction]) e1 = Some part1 /\
    calculateTrailStats getTime (junction :: after) e2 = Some part2 /\
    distance whole = (distance part1 + distance part2)%R.
Proof.
  destruct (calculateTrailStats_distance getTime
              (before ++ junction :: after) elevations) as (whole & E & Hd).
  destruct (calculateTrailStats_distance getTime (before ++ [junction]) e1)
    as (part1 & E1 & Hd1).
  destruct (calculateTrailStats_distance getTime (junction :: after) e2)
    as (part2 & E2 & Hd2).
  exists whole, part1, part2. repeat split; try assumption.
  rewrite Hd, Hd1, Hd2, consecutivePairs_app, map_app, Rsum_app.
  reflexivity.
Qed.

(* ================================================================== *)
(** * The client: how a request settles *)

Section ClientFacts.
Context {num : Type} {JN : JsNumber num}.
Variable email password : string.
Variable now : N.
Variable upstream : nat -> Request -> Reply num.


Local Abbreviation request' := (request email password now upstream).
Local Abbreviation authenticate' := (authenticate email password now upstream).
Local Abbreviation authenticateWith' := (authenticateWith email password now).
Local Abbreviation ensureAuthenticated' :=
  (ensureAuthenticated email password now upstream).
Local Abbreviation loginRequest' := (loginRequest email password).

Lemma truthyString_spec (s : option string) :
  truthyString s = true <-> exists t, s = Some t /\ t <> ""%string.
Proof.
  unfold truthyString. destruct s as [t|].
  - destruct (String.eqb_spec t ""%string) as [->|Hne]; simpl; split.
    + discriminate.
    + intros (t & E & Hne). injection E as <-. congruence.
    + intros _. exists t. split; [reflexivity | exact Hne].
    + reflexivity.
  - split; [discriminate | intros (t & E & _); discriminate].
Qed.

(** [isSessionValid] decides the session invariant. *)
Lemma isSessionValid_spec (s : Service) :
  isSessionValid now s = true <-> sessionValid now s.
Proof.
  unfold isSessionValid, sessionValid. rewrite andb_true_iff, truthyString_spec.
  split.
  - intros [(t & Et & Hne) He].
    destruct (sessionExpiry s) as [e|]; [|discriminate].
    apply andb_true_iff in He. destruct He as [_ Hlt].
    apply Z.ltb_lt in Hlt. exists t, e. repeat split; assumption.
  - intros (t & e & Et & Hne & Ee & Hlt). split.
    + exists t. split; assumption.
    + rewrite Ee. apply andb_true_iff. split.
      * apply negb_true_iff, Z.eqb_neq. lia.
      * apply Z.ltb_lt. exact Hlt.
Qed.

Lemma ensureAuthenticated_valid (fuel : nat) (st : State) :
  isSessionValid now (service st) = true ->
  ensureAuthenticated' fuel st = (Resolved tt, st).
Proof.
  intros Hv. unfold ensureAuthenticated, bind, getService.
  rewrite Hv. reflexivity.
Qed.

(** One step of [request']: the reply is accepted. *)
Lemma request_accepted (fuel : nat) (config : Request) (st : State)
    (code : Z) (d : Data num) :
  upstream (List.length (sent st)) (withDefaults (service st) config)
  = Answer code d ->
  validateStatus code = true ->
  request' (S fuel) config st
  = (Resolved {| status := code; data := d |},
     afterSending st (withDefaults (service st) config)).
Proof.
  intros Hup Hok. cbn [request]. unfold tryCatch, dispatch.
  rewrite Hup, Hok. reflexivity.
Qed.

(** One step of [request']: the reply is refused and the interceptor lets the
    error through. *)
Lemma request_refused (fuel : nat) (config : Request) (st : State)
    (code : Z) (d : Data num) :
  upstream (List.length (sent st)) (withDefaults (service st) config)
  = Answer code d ->
  validateStatus code = false ->
  (code =? 401)%Z && truthyString (accessToken (service st)) = false ->
  request' (S fuel) config st
  = (Rejected (AxiosError (Some {| status := code; data := d |})
                          (Some (withDefaults (service st) config))),
     afterSending st (withDefaults (service st) config)).
Proof.
  intros Hup Hbad Hgate. cbn [request].
  unfold tryCatch, dispatch. rewrite Hup, Hbad.
  unfold onRejected, bind, getService, throw.
  cbn [isUnauthorized status service]. rewrite Hgate. reflexivity.
Qed.

(** One step of [request]: a 401 while a token is held runs the interceptor's
    login and retry. *)
Lemma request_intercepted (fuel : nat) (config : Request) (st : State)
    (d : Data num) :
  truthyString (accessToken (service st)) = true ->
  upstream (List.length (sent st)) (withDefaults (service st) config)
  = Answer 401 d ->
  request' (S fuel) config st
  = bind (authenticateWith' (request' fuel))
         (fun _ =>
            bind getService
                 (fun s' =>
                    request' fuel
                      (setAuthorization (withDefaults (service st) config)
                         ("Bearer " ++ interpolate (accessToken s')))))
         (afterSending st (withDefaults (service st) config)).
Proof.
  intros Htok Hup. cbn [request]. unfold tryCatch at 1, dispatch.
  rewrite Hup.
  cbn [validateStatus Z.leb Z.ltb Z.compare Pos.compare Pos.compare_cont andb].
  unfold onRejected, bind at 1, getService.
  cbn [isUnauthorized status service Z.eqb Pos.eqb andb]. rewrite Htok.
  reflexivity.
Qed.

(** [authenticate] when the login is accepted with a non-empty token. *)
Lemma authenticateWith_accepted (fuel : nat) (st : State) (code : Z)
    (l : Raw.Login) :
  upstream (List.length (sent st)) (withDefaults (service st) loginRequest')
  = Answer code (DLogin l) ->
  validateStatus code = true ->
  Raw.access_token l <> ""%string ->
  authenticateWith' (request' (S fuel)) st
  = (Resolved true,
     {| service :=
          {| accessToken := Some (Raw.access_token l);
             userId := Some (Raw.user_id l);
             sessionExpiry := Some (Z.of_N now + Raw.expires_in l * 1000)%Z;
             defaultAuthorization :=
               Some ("Bearer " ++ Raw.access_token l)%string |};
        sent := sent st ++ [withDefaults (service st) loginRequest'] |}).
Proof.
  intros Hup Hok Hne. unfold authenticateWith, tryCatch, bind.
  erewrite request_accepted; [| exact Hup | exact Hok].
  cbn [data truthyString].
  destruct (String.eqb_spec (Raw.access_token l) "") as [E|_];
    [contradiction | reflexivity].
Qed.

Lemma request_no_answer (fuel : nat) (config : Request) (st : State) :
  upstream (List.length (sent st)) (withDefaults (service st) config)
  = NoAnswer ->
  request' (S fuel) config st
  = (Rejected (AxiosError None (Some (withDefaults (service st) config))),
     afterSending st (withDefaults (service st) config)).
Proof.
  intros Hup. cbn [request]. unfold tryCatch, dispatch.
  rewrite Hup. reflexivity.
Qed.

(** [authenticate'] leaves the requests of its [post], and nothing else. *)
Lemma authenticateWith_sent (post : Request -> Async num (Response num))
    (st : State) :
  sent (snd (authenticateWith' post st)) = sent (snd (post loginRequest' st)).
Proof.
  unfold authenticateWith, tryCatch, bind.
  destruct (post loginRequest' st) as [[response|e|] st']; try reflexivity.
  destruct (data response) as [| |l| | |]; try reflexivity.
  destruct (truthyString (Some (Raw.access_token l))); reflexivity.
Qed.

(** [authenticate] catches whatever its request rejects with. *)
Lemma authenticateWith_never_rejects
    (post : Request -> Async num (Response num)) (st : State) (e : JsError num) :
  fst (authenticateWith' post st) <> Rejected e.
Proof.
  unfold authenticateWith, tryCatch, bind.
  destruct (post loginRequest' st) as [[response|e'|] st']; try discriminate.
  destruct (data response) as [| |l| | |]; try discriminate.
  destruct (truthyString (Some (Raw.access_token l))); discriminate.
Qed.

(** [ensureAuthenticated] rejects with one error only. *)
Lemma ensureAuthenticated_rejection (fuel : nat) (st : State)
    (e : JsError num) :
  fst (ensureAuthenticated' fuel st) = Rejected e ->
  e = Error "Failed to authenticate with Tractive API".
Proof.
  unfold ensureAuthenticated, bind at 1, getService.
  destruct (negb (isSessionValid now (service st))); [|discriminate].
  unfold bind, authenticate.
  pose proof (authenticateWith_never_rejects (request' fuel) st) as Hnr.
  destruct (authenticateWith' (request' fuel) st) as [[[|]|e'|] st'];
    cbn [fst negb throw ret] in *; try discriminate.
  - intros H. injection H as <-. reflexivity.
  - exfalso. exact (Hnr e' eq_refl).
Qed.

Local Ltac log_grows st1 :=
  cbn [snd]; subst st1; cbn [sent] in *;
  repeat match goal with H : sent _ = _ |- _ => rewrite H; clear H end;
  eexists; rewrite <- ?app_assoc; reflexivity.

(** Requests are only ever added to the log, and with fuel the first one
    added is the request' asked for. *)
Lemma request_sent_first (fuel : nat) (config : Request) (st : State) :
  exists rest,
    sent (snd (request' (S fuel) config st))
    = sent st ++ withDefaults (service st) config :: rest.
Proof.
  assert (G : forall fuel config st,
             exists rest, sent (snd (request' fuel config st))
                          = sent st ++ rest).
  { clear fuel config st.
    induction fuel as [|fuel IH]; intros config st.
    - exists []. simpl. now rewrite app_nil_r.
    - cbn [request]. unfold tryCatch, dispatch.
      set (c := withDefaults (service st) config).
      set (st1 := {| service := service st; sent := sent st ++ [c] |}).
      assert (Hrej : forall e, exists rest,
                 sent (snd (onRejected email password now (request' fuel) e st1))
                 = sent st ++ rest).
      { intros e. unfold onRejected, bind, getService, throw.
        destruct (isUnauthorized e && truthyString (accessToken (service st1))).
        - pose proof (authenticateWith_sent (request' fuel) st1) as Ha.
          destruct (IH loginRequest' st1) as [r1 Hr1]. rewrite Hr1 in Ha. clear Hr1.
          destruct (authenticateWith' (request' fuel) st1) as [[b|e'|] st2];
            cbn [snd] in Ha |- *.
          + destruct (errorConfig e) as [c'|].
            * match goal with
              | |- context [request' fuel ?c2 st2] =>
                  destruct (IH c2 st2) as [r2 Hr2]
              end.
              log_grows st1.
            * log_grows st1.
          + log_grows st1.
          + log_grows st1.
        - exists [c]. reflexivity. }
      destruct (upstream (List.length (sent st)) c) as [status d|].
      + destruct (validateStatus status).
        * exists [c]. reflexivity.
        * apply Hrej.
      + apply Hrej. }
  cbn [request]. unfold tryCatch, dispatch.
  set (c := withDefaults (service st) config).
  set (st1 := {| service := service st; sent := sent st ++ [c] |}).
  assert (Hrej : forall e, exists rest,
             sent (snd (onRejected email password now (request' fuel) e st1))
             = sent st ++ c :: rest).
  { intros e. unfold onRejected, bind, getService, throw.
    destruct (isUnauthorized e && truthyString (accessToken (service st1))).
    - pose proof (authenticateWith_sent (request' fuel) st1) as Ha.
      destruct (G fuel loginRequest' st1) as [r1 Hr1]. rewrite Hr1 in Ha. clear Hr1.
      destruct (authenticateWith' (request' fuel) st1) as [[b|e'|] st2];
        cbn [snd] in Ha |- *.
      + destruct (errorConfig e) as [c'|].
        * match goal with
          | |- context [request' fuel ?c2 st2] =>
              destruct (G fuel c2 st2) as [r2 Hr2]
          end.
          log_grows st1.
        * log_grows st1.
      + log_grows st1.
      + log_grows st1.
    - exists []. reflexivity. }
  destruct (upstream (List.length (sent st)) c) as [status d|].
  - destruct (validateStatus status).
    + exists []. reflexivity.
    + apply Hrej.
  - apply Hrej.
Qed.
End ClientFacts.

(* ================================================================== *)
(** * The client: the properties *)

Section ClientProperties.
Context {num : Type} {JN : JsNumber num}.
Variable email password : string.
Variable now : N.
Variable upstream : nat -> Request -> Reply num.

Local Open Scope string_scope.
Local Open Scope list_scope.

Local Abbreviation request' := (request email password now upstream).
Local Abbreviation ensureAuthenticated' :=
  (ensureAuthenticated email password now upstream).
Local Abbreviation loginRequest' := (loginRequest email password).

(** An operation of the shape
    [await ensureAuthenticated(); try { request; k } catch { h }]
    with a valid session sends its request first. *)
Lemma operation_sends_request {A : Type} (fuel : nat) (config : Request)
    (k : Response num -> Async num A) (h : JsError num -> Async num A)
    (st : State) :
  sessionValid now (service st) ->
  (forall r st', snd (k r st') = st') ->
  (forall e st', snd (h e st') = st') ->
  exists rest,
    sent (snd (bind (ensureAuthenticated' (S fuel))
                    (fun _ => tryCatch (bind (request' (S fuel) config) k) h)
                    st))
    = sent st ++ withDefaults (service st) config :: rest.
Proof.
  intros Hv Hk Hh. apply isSessionValid_spec in Hv.
  unfold bind at 1. rewrite ensureAuthenticated_valid by exact Hv.
  destruct (request_sent_first email password now upstream fuel config st)
    as [rest Hrest].
  exists rest. rewrite <- Hrest. unfold tryCatch, bind.
  destruct (request' (S fuel) config st) as [[r|e|] st']; cbn [snd].
  - specialize (Hk r st').
    destruct (k r st') as [[a|e|] st'']; cbn [snd] in *; subst;
      try reflexivity.
    now rewrite Hh.
  - now rewrite Hh.
  - reflexivity.
Qed.

Local Abbreviation positionsRequest trackerId from to :=
  (get ("/tracker/" ++ trackerId ++ "/positions")
       (Some {| time_from := from; time_to := to;
                format := "json_segments" |})).

(** C2, as the code has it. [getPositionHistory] does not compare [from]
    with [to].  For every tracker id and every pair of valid dates, in either
    order, with a valid session the first thing it does is to send the
    positions request carrying [time_from = from] and [time_to = to]; and
    when that request is answered with an accepted status and a list of
    samples, it resolves with the mapped positions after that single request.
    The only check on the dates is the one [toISOString] makes: when either
    date is an Invalid Date it rejects with the failure to fetch, and nothing
    is sent.  Whatever the dates, the only errors it rejects with are the
    failure to authenticate and the failure to fetch. *)
Theorem C2_position_history_sends_every_range
    (fuel : nat) (trackerId : string) (from to : Z) (st : State) :
  sessionValid now (service st) ->
  let sentRequest :=
    withDefaults (service st) (positionsRequest trackerId from to) in
  (exists rest,
     sent (snd (getPositionHistory email password now upstream (S fuel)
                                   trackerId (DateAt from) (DateAt to) st))
     = sent st ++ sentRequest :: rest) /\
  (forall code samples,
     upstream (List.length (sent st)) sentRequest
     = Answer code (DPositions samples) ->
     validateStatus code = true ->
     getPositionHistory email password now upstream (S fuel)
                        trackerId (DateAt from) (DateAt to) st
     = (Resolved (map (toPosition trackerId) samples),
        afterSending st sentRequest)) /\
  (forall date date' : JsDate,
     date = InvalidDate \/ date' = InvalidDate ->
     getPositionHistory email password now upstream (S fuel)
                        trackerId date date' st
     = (Rejected (Error "Failed to fetch position history"), st)) /\
  (forall (date date' : JsDate) e,
     fst (getPositionHistory email password now upstream (S fuel)
                             trackerId date date' st) = Rejected e ->
     e = Error "Failed to authenticate with Tractive API" \/
     e = Error "Failed to fetch position history").
Proof.
  intros Hv sentRequest. split; [|split; [|split]].
  - unfold getPositionHistory. cbn [toISOString].
    apply operation_sends_request.
    + exact Hv.
    + intros r st'. destruct (data r); reflexivity.
    + reflexivity.
  - intros code samples Hup Hok. apply isSessionValid_spec in Hv.
    unfold getPositionHistory, bind at 1.
    rewrite ensureAuthenticated_valid by exact Hv.
    cbn [toISOString]. unfold tryCatch, bind.
    rewrite (request_accepted email password now upstream fuel
               (positionsRequest trackerId from to) st Hup Hok).
    reflexivity.
  - intros date date' Hinvalid. apply isSessionValid_spec in Hv.
    unfold getPositionHistory, bind at 1.
    rewrite ensureAuthenticated_valid by exact Hv.
    destruct Hinvalid as [-> | ->]; [|destruct date]; reflexivity.
  - intros date date' e. unfold getPositionHistory, bind at 1.
    pose proof (ensureAuthenticated_rejection email password now upstream
                  (S fuel) st) as Hauth.
    destruct (ensureAuthenticated' (S fuel) st) as [[u|e'|] st1];
      cbn [fst] in *.
    + unfold tryCatch.
      match goal with
      | |- fst (match ?m st1 with _ => _ end) = _ -> _ =>
          destruct (m st1) as [[ps|e''|] st2]
      end; cbn [fst throw]; try discriminate.
      intros H. injection H as <-. right. reflexivity.
    + intros H. injection H as <-. left. apply Hauth. reflexivity.
    + discriminate.
Qed.

(** C3, as the code has it. No operation checks its tracker id: called with
    the empty id and a valid session, each of [getLatestPosition],
    [getPositionHistory] (with valid dates), [getGeofences],
    [toggleLiveTracking], [triggerLED] and [triggerBuzzer] first sends its
    request upstream, with the empty id in the path. *)
Theorem C3_empty_tracker_id_is_sent_upstream
    (fuel : nat) (from to : Z) (active : bool) (st : State) :
  sessionValid now (service st) ->
  sendsFirst (getLatestPosition email password now upstream (S fuel) "")
             st GET "/tracker//positions" /\
  sendsFirst (getPositionHistory email password now upstream (S fuel) ""
                                 (DateAt from) (DateAt to))
             st GET "/tracker//positions" /\
  sendsFirst (getGeofences email password now upstream (S fuel) "")
             st GET "/tracker//geofences" /\
  sendsFirst (toggleLiveTracking email password now upstream (S fuel) ""
                                 active)
             st POST "/tracker//live_tracking" /\
  sendsFirst (triggerLED email password now upstream (S fuel) "")
             st POST "/tracker//led" /\
  sendsFirst (triggerBuzzer email password now upstream (S fuel) "")
             st POST "/tracker//buzzer".
Proof.
  intros Hv. unfold sendsFirst.
  assert (G : forall (A : Type) config (k : Response num -> Async num A) h,
             (forall r st', snd (k r st') = st') ->
             (forall e st', snd (h e st') = st') ->
             exists r rest,
               sent (snd (bind (ensureAuthenticated' (S fuel))
                            (fun _ => tryCatch
                                        (bind (request' (S fuel) config) k) h)
                            st))
               = sent st ++ r :: rest /\
               method r = method config /\ url r = url config).
  { intros A config k h Hk Hh.
    destruct (operation_sends_request fuel config k h st Hv Hk Hh)
      as [rest Hrest].
    exists (withDefaults (service st) config), rest.
    split; [exact Hrest | split; reflexivity]. }
  repeat split.
  - unfold getLatestPosition. apply G; [|reflexivity].
    intros r st'. destruct (data r) as [| | | |l|]; try reflexivity.
    destruct (nth_error _ _); reflexivity.
  - unfold getPositionHistory. cbn [toISOString]. apply G; [|reflexivity].
    intros r st'. destruct (data r); reflexivity.
  - unfold getGeofences. apply G; [|reflexivity].
    intros r st'. destruct (data r) as [| | | | |l]; try reflexivity.
    destruct (mapThrowing _ _); reflexivity.
  - unfold toggleLiveTracking. apply G; reflexivity.
  - unfold triggerLED. apply G; reflexivity.
  - unfold triggerBuzzer. apply G; reflexivity.
Qed.

(** C8. With a valid session (a non-empty stored token and the current time
    before the stored expiry) the auth step of every operation,
    [ensureAuthenticated], resolves at once: the service, and so the stored
    token, is unchanged and nothing is sent.  Otherwise (no token, or the
    expiry reached) its first act is to send the login request, and when that
    is answered with an accepted status and a non-empty token, it resolves
    with this token stored, after that single request. *)
Theorem C8_valid_session_is_reused
    (fuel : nat) (st : State) :
  (sessionValid now (service st) ->
   ensureAuthenticated' fuel st = (Resolved tt, st)) /\
  (~ sessionValid now (service st) ->
   let login := withDefaults (service st) loginRequest' in
   (exists rest,
      sent (snd (ensureAuthenticated' (S fuel) st))
      = sent st ++ login :: rest) /\
   (forall code l,
      upstream (List.length (sent st)) login = Answer code (DLogin l) ->
      validateStatus code = true ->
      Raw.access_token l <> ""%string ->
      ensureAuthenticated' (S fuel) st
      = (Resolved tt,
         {| service :=
              {| accessToken := Some (Raw.access_token l);
                 userId := Some (Raw.user_id l);
                 sessionExpiry :=
                   Some (Z.of_N now + Raw.expires_in l * 1000)%Z;
                 defaultAuthorization :=
                   Some ("Bearer " ++ Raw.access_token l)%string |};
            sent := sent st ++ [login] |}))).
Proof.
  split.
  - intros Hv. apply ensureAuthenticated_valid, isSessionValid_spec, Hv.
  - intros Hnv login. subst login.
    assert (Hf : isSessionValid now (service st) = false).
    { destruct (isSessionValid now (service st)) eqn:E; [|reflexivity].
      apply isSessionValid_spec in E. contradiction. }
    split.
    + destruct (request_sent_first email password now upstream fuel
                  loginRequest' st) as [rest Hrest].
      exists rest. rewrite <- Hrest.
      rewrite <- (authenticateWith_sent email password now
                    (request' (S fuel)) st).
      unfold ensureAuthenticated, bind at 1, getService. rewrite Hf.
      cbn [negb]. unfold bind, authenticate.
      destruct (authenticateWith email password now (request' (S fuel)) st)
        as [[[|]|e|] st']; reflexivity.
    + intros code l Hup Hok Htok.
      unfold ensureAuthenticated, bind at 1, getService. rewrite Hf.
      cbn [negb]. unfold bind, authenticate, authenticateWith, tryCatch, bind.
      rewrite (request_accepted email password now upstream fuel
                 loginRequest' st Hup Hok).
      cbn [data truthyString].
      destruct (String.eqb_spec (Raw.access_token l) "") as [E|_];
        [contradiction|].
      reflexivity.
Qed.

(** C10. While no access token is held, a 401 reply is handed to the caller
    as it came: [request] rejects with the axios error carrying that
    response and the configuration sent, the service is unchanged, and the
    one request is the only one sent (no login, no retry).  The login request
    is such a request: [authenticate] then resolves to [false] after that one
    request. *)
Theorem C10_unauthorized_without_token_is_not_retried
    (fuel : nat) (st : State) :
  truthyString (accessToken (service st)) = false ->
  (forall config d,
     upstream (List.length (sent st)) (withDefaults (service st) config)
     = Answer 401 d ->
     request' (S fuel) config st
     = (Rejected (AxiosError (Some {| status := 401; data := d |})
                             (Some (withDefaults (service st) config))),
        afterSending st (withDefaults (service st) config))) /\
  (forall d,
     upstream (List.length (sent st)) (withDefaults (service st) loginRequest')
     = Answer 401 d ->
     authenticate email password now upstream (S fuel) st
     = (Resolved false,
        afterSending st (withDefaults (service st) loginRequest'))).
Proof.
  intros Hno.
  assert (G : forall config d,
             upstream (List.length (sent st))
                      (withDefaults (service st) config) = Answer 401 d ->
             request' (S fuel) config st
             = (Rejected (AxiosError (Some {| status := 401; data := d |})
                                     (Some (withDefaults (service st) config))),
                afterSending st (withDefaults (service st) config))).
  { intros config d Hup. apply request_refused.
    - exact Hup.
    - reflexivity.
    - rewrite Hno. reflexivity. }
  split; [exact G|].
  intros d Hup. unfold authenticate, authenticateWith, tryCatch, bind.
  rewrite (G _ _ Hup). reflexivity.
Qed.

(** X1. A single 401 while a token is held. The request is answered 401, the
    login that follows is accepted with a non-empty token, and the retry is
    accepted: [request] resolves with the retry's response, the new session
    is stored, and exactly three requests were sent, namely the original, one
    login, and one retry carrying the new token. *)
Theorem single_unauthorized_reply_one_login_one_retry
    (fuel : nat) (config : Request) (st : State)
    (d : Data num) (code1 : Z) (l : Raw.Login) (code2 : Z) (d2 : Data num) :
  let n := List.length (sent st) in
  let original := withDefaults (service st) config in
  let login := withDefaults (service st) loginRequest' in
  let retry :=
    setAuthorization original ("Bearer " ++ Raw.access_token l) in
  truthyString (accessToken (service st)) = true ->
  upstream n original = Answer 401 d ->
  upstream (S n) login = Answer code1 (DLogin l) ->
  validateStatus code1 = true ->
  Raw.access_token l <> ""%string ->
  upstream (S (S n)) retry = Answer code2 d2 ->
  validateStatus code2 = true ->
  request' (S (S fuel)) config st
  = (Resolved {| status := code2; data := d2 |},
     {| service :=
          {| accessToken := Some (Raw.access_token l);
             userId := Some (Raw.user_id l);
             sessionExpiry := Some (Z.of_N now + Raw.expires_in l * 1000)%Z;
             defaultAuthorization :=
               Some ("Bearer " ++ Raw.access_token l)%string |};
        sent := sent st ++ [original; login; retry] |}).
Proof.
  intros n original login retry Htok H1 H2 Hok1 Hne H3 Hok2.
  rewrite (request_intercepted email password now upstream (S fuel)
             config st Htok H1).
  fold original. unfold bind at 1.
  assert (Hn1 : List.length (sent (afterSending st original)) = S n).
  { subst n. cbn [afterSending sent]. rewrite length_app. simpl. lia. }
  rewrite (@authenticateWith_accepted num email password now upstream fuel
             (afterSending st original) code1 l);
    [| rewrite Hn1; exact H2 | exact Hok1 | exact Hne].
  unfold bind, getService. cbn [service accessToken interpolate].
  fold retry. cbn [afterSending service sent].
  match goal with
  | |- request _ _ _ _ _ retry ?st2 = _ =>
      rewrite (@request_accepted num email password now upstream fuel
                 retry st2 code2 d2)
  end.
  - unfold afterSending, retry, login.
    cbn [service sent withDefaults setAuthorization Authorization method url
         params body].
    rewrite <- !app_assoc. reflexivity.
  - cbn [service sent]. rewrite !length_app. cbn [List.length].
    replace (List.length (sent st) + 1 + 1)%nat with (S (S n))
      by (subst n; lia).
    exact H3.
  - exact Hok2.
Qed.
End ClientProperties.

(* ================================================================== *)
(** * The client on concrete runs (binary64 numbers) *)

Section Scenarios.
Local Open Scope string_scope.
Local Open Scope list_scope.

Local Abbreviation F := PrimFloat.float.

Lemma heldService_valid : sessionValid 1000 heldService.
Proof.
  exists "tok1", 5000%Z.
  split; [reflexivity | split; [discriminate | split; reflexivity]].
Defined.

Lemma request_alwaysUnauthorized_pending (fuel : nat) :
  forall (config : Request) (st : State),
    String.eqb (url config) "/auth/login" = false ->
    truthyString (accessToken (service st)) = true ->
    fst (request "e" "p" 1000 alwaysUnauthorized fuel config st) = Pending.
Proof.
  induction fuel as [|fuel IH]; intros config st Hurl Htok.
  - reflexivity.
  - cbn [request]. unfold tryCatch at 1, dispatch.
    unfold alwaysUnauthorized at 1. cbn [url withDefaults]. rewrite Hurl.
    cbn [validateStatus Z.leb Z.ltb Z.compare Pos.compare Pos.compare_cont
         andb].
    unfold onRejected, bind at 1, getService.
    cbn [isUnauthorized status service Z.eqb Pos.eqb andb]. rewrite Htok.
    unfold bind at 1.
    destruct fuel as [|fuel'].
    + reflexivity.
    + unfold authenticateWith, tryCatch at 1, bind at 1.
      rewrite (@request_accepted F "e" "p" 1000%N alwaysUnauthorized fuel'
                 (loginRequest "e" "p") _ 200%Z
                 (DLogin {| Raw.access_token := "tok2"; Raw.user_id := "u1";
                            Raw.expires_in := 3600 |}));
        [|reflexivity|reflexivity].
      cbn -[request]. apply IH.
      * exact Hurl.
      * reflexivity.
Qed.

(** C1, the code at the failing inputs. A token is held and the session is
    valid.  (1) Upstream answers 401 to the trackers request and again to its
    retry: the error is not surfaced; the client logs in a second time and
    sends the request a third time, and [getTrackers] resolves.  (2) Upstream
    answers 401 to every trackers request: whatever the fuel, [getTrackers]
    is still pending, logging in and retrying without end. *)
Theorem C1_second_unauthorized_reply_is_retried_again :
  (let run := getTrackers "e" "p" 1000 unauthorizedTwice 5 heldState in
   fst run = @Resolved F _ [] /\
   map url (sent (snd run))
   = ["/user/u1/trackers"; "/auth/login"; "/user/u1/trackers";
      "/auth/login"; "/user/u1/trackers"]) /\
  (forall fuel,
     fst (getTrackers "e" "p" 1000 alwaysUnauthorized fuel heldState)
     = Pending).
Proof.
  split.
  - cbv zeta. split; vm_compute; reflexivity.
  - intros fuel. unfold getTrackers, bind at 1.
    rewrite ensureAuthenticated_valid by reflexivity.
    unfold tryCatch, bind at 1, getService.
    pose proof (request_alwaysUnauthorized_pending fuel
                  (get "/user/u1/trackers" None) heldState
                  eq_refl eq_refl) as Hp.
    cbn [service heldState heldService userId interpolate].
    change ("/user/" ++ "u1" ++ "/trackers")%string with "/user/u1/trackers".
    unfold bind.
    destruct (request "e" "p" 1000 alwaysUnauthorized fuel
                (get "/user/u1/trackers" None) heldState)
      as [[r|e|] st']; cbn [fst] in Hp; try discriminate.
    reflexivity.
Qed.

(** Against C2 as stated: with [from = 200 > to = 100] the positions request
    is sent and the call resolves. *)
Lemma C2_counterexample :
  let run :=
    getPositionHistory "e" "p" 1000 noPositions 1 "T1"
                       (DateAt 200) (DateAt 100) heldState in
  (200 > 100)%Z /\
  fst run = @Resolved F _ [] /\
  sent (snd run)
  = [{| method := GET; url := "/tracker/T1/positions";
        params := Some {| time_from := 200; time_to := 100;
                          format := "json_segments" |};
        body := NoBody; Authorization := Some "Bearer tok1" |}].
Proof.
  cbv zeta. split; [reflexivity|]. split; vm_compute; reflexivity.
Qed.

Lemma C2_witness :
  sessionValid 1000 (service heldState) /\
  getPositionHistory "e" "p" 1000 noPositions 1 "T1"
                     (DateAt 100) (DateAt 200) heldState
  = (@Resolved F _ [],
     afterSending heldState
       (withDefaults heldService
          (get "/tracker/T1/positions"
               (Some {| time_from := 100; time_to := 200;
                        format := "json_segments" |})))).
Proof.
  split.
  - exact heldService_valid.
  - exact (proj1 (proj2 (@C2_position_history_sends_every_range
                           F float_JsNumber "e" "p" 1000%N noPositions 0
                           "T1" 100%Z 200%Z heldState heldService_valid))
                 200%Z [] eq_refl eq_refl).
Defined.

(** Against C3 as stated: with the empty tracker id the positions request is
    sent, with path [/tracker//positions], and the call resolves. *)
Lemma C3_counterexample :
  let run := getLatestPosition "e" "p" 1000 noPositions 1 "" heldState in
  fst run = @Resolved F _ None /\
  map url (sent (snd run)) = ["/tracker//positions"].
Proof.
  cbv zeta. split; vm_compute; reflexivity.
Qed.

Lemma C3_witness :
  sessionValid 1000 (service heldState) /\
  sendsFirst (getLatestPosition "e" "p" 1000 noPositions 1 "")
             heldState GET "/tracker//positions".
Proof.
  split.
  - exact heldService_valid.
  - exact (proj1 (@C3_empty_tracker_id_is_sent_upstream F float_JsNumber
                    "e" "p" 1000%N noPositions 0 0%Z 0%Z true heldState
                    heldService_valid)).
Defined.

Lemma C8_witness :
  ensureAuthenticated "e" "p" 1000 alwaysUnauthorized 0 heldState
  = (Resolved tt, heldState) /\
  ensureAuthenticated "e" "p" 1000 alwaysUnauthorized 1 freshState
  = (Resolved tt,
     {| service :=
          {| accessToken := Some "tok2"; userId := Some "u1";
             sessionExpiry := Some 3601000%Z;
             defaultAuthorization := Some "Bearer tok2" |};
        sent := [loginRequest "e" "p"] |}).
Proof.
  split.
  - exact (proj1 (@C8_valid_session_is_reused F
                    "e" "p" 1000%N alwaysUnauthorized 0 heldState)
                 heldService_valid).
  - refine (proj2 (proj2 (@C8_valid_session_is_reused F
                            "e" "p" 1000%N alwaysUnauthorized 0 freshState)
                         _)
              200%Z _ eq_refl eq_refl _).
    + intros (t & e & H & _). discriminate H.
    + discriminate.
Defined.

Lemma C10_witness :
  truthyString (accessToken (service freshState)) = false /\
  authenticate "e" "p" 1000 refusesAll 1 freshState
  = (@Resolved F _ false,
     afterSending freshState (loginRequest "e" "p")).
Proof.
  split.
  - reflexivity.
  - exact (proj2 (@C10_unauthorized_without_token_is_not_retried
                    F "e" "p" 1000%N refusesAll 0 freshState
                    eq_refl)
                 DNull eq_refl).
Defined.

Lemma single_unauthorized_reply_witness :
  request "e" "p" 1000 unauthorizedOnce 2 (get "/user/u1/trackers" None)
          heldState
  = (Resolved {| status := 200; data := DTrackers [] |},
     {| service :=
          {| accessToken := Some "tok2"; userId := Some "u1";
             sessionExpiry := Some 3601000%Z;
             defaultAuthorization := Some "Bearer tok2" |};
        sent :=
          [{| method := GET; url := "/user/u1/trackers"; params := None;
              body := NoBody; Authorization := Some "Bearer tok1" |};
           {| method := POST; url := "/auth/login"; params := None;
              body := Credentials "e" "p";
              Authorization := Some "Bearer tok1" |};
           {| method := GET; url := "/user/u1/trackers"; params := None;
              body := NoBody; Authorization := Some "Bearer tok2" |}] |}).
Proof.
  refine (@single_unauthorized_reply_one_login_one_retry F
            "e" "p" 1000%N unauthorizedOnce 0
            (get "/user/u1/trackers" None) heldState DNull 200%Z
            {| Raw.access_token := "tok2"; Raw.user_id := "u1";
               Raw.expires_in := 3600 |}
            200%Z (DTrackers []) eq_refl eq_refl eq_refl eq_refl _
            eq_refl eq_refl).
  discriminate.
Defined.
End Scenarios.

(* ================================================================== *)
(** * The client: further properties of the operations *)

Section OperationProperties.
Context {num : Type} {JN : JsNumber num}.
Variable email password : string.
Variable now : N.
Variable upstream : nat -> Request -> Reply num.

Local Open Scope string_scope.
Local Open Scope list_scope.

Local Abbreviation request' := (request email password now upstream).
Local Abbreviation authenticate' :=
  (authenticate email password now upstream).
Local Abbreviation ensureAuthenticated' :=
  (ensureAuthenticated email password now upstream).
Local Abbreviation loginRequest' := (loginRequest email password).
Local Abbreviation run' := (run email password now upstream).

(** Every operation is
    [await ensureAuthenticated(); try { request; k } catch { throw message }]
    around its own request, and [k] sends nothing. *)
Lemma run_shape (fuel : nat) (op : Operation) :
  exists (A : Type) (k : Response num -> Async num A),
    (forall r st', snd (k r st') = st') /\
    forall st,
      run' fuel op st
      = forget
          (bind (ensureAuthenticated' fuel)
                (fun _ =>
                   tryCatch
                     (fun st1 =>
                        bind (request' fuel (requestOf now (service st1) op))
                             k st1)
                     (fun _ => throw (Error (failureMessage op)))))
          st.
Proof.
  destruct op as [|trackerId|trackerId from to|trackerId|trackerId active
                  |trackerId|trackerId];
    eexists; eexists; (split; [|intros st; reflexivity]); intros r st'; cbv beta.
  - destruct (data r); reflexivity.
  - destruct (data r) as [| | | |l|]; try reflexivity.
    destruct (nth_error _ _); reflexivity.
  - destruct (data r); reflexivity.
  - destruct (data r) as [| | | | |l]; try reflexivity.
    destruct (mapThrowing _ _); reflexivity.
  - reflexivity.
  - reflexivity.
  - reflexivity.
Qed.

Lemma authenticate_failed_login (fuel : nat) (st : State) :
  loginFails (truthyString (accessToken (service st)))
             (upstream (List.length (sent st))
                       (withDefaults (service st) loginRequest')) = true ->
  authenticate' (S fuel) st
  = (Resolved false,
     afterSending st (withDefaults (service st) loginRequest')).
Proof.
  intros Hfail. unfold authenticate, authenticateWith, tryCatch, bind.
  set (login := withDefaults (service st) loginRequest') in *.
  destruct (upstream (List.length (sent st)) login) as [code d|] eqn:Hup;
    cbn [loginFails] in Hfail.
  - destruct (validateStatus code) eqn:Hok.
    + erewrite request_accepted; [| exact Hup | exact Hok].
      cbn [data]. apply negb_true_iff in Hfail.
      destruct d as [| |l| | |]; try reflexivity.
      cbn [carriesToken] in Hfail. rewrite Hfail. reflexivity.
    + apply negb_true_iff in Hfail.
      erewrite request_refused; [| exact Hup | exact Hok | exact Hfail].
      reflexivity.
  - erewrite request_no_answer; [| exact Hup]. reflexivity.
Qed.

(** X4. [authenticate] commits a whole session or none, and never rejects.
    Whatever the login request rejects with is caught: when the reply is no
    answer, a refused status (a 401 while a token is held apart) or an accepted
    reply without a token, it resolves to [false] after that one request and
    the service is as it was; when the reply is accepted with a non-empty
    token, it resolves to [true] with the token, the user id, the expiry
    [now + expires_in * 1000] and the Bearer header all replaced. *)
Theorem authenticate_commits_or_keeps (fuel : nat) (st : State) :
  let login := withDefaults (service st) loginRequest' in
  let reply := upstream (List.length (sent st)) login in
  (loginFails (truthyString (accessToken (service st))) reply = true ->
   authenticate' (S fuel) st = (Resolved false, afterSending st login)) /\
  (forall code l,
     reply = Answer code (DLogin l) ->
     validateStatus code = true ->
     Raw.access_token l <> "" ->
     authenticate' (S fuel) st
     = (Resolved true,
        {| service := sessionOf now l; sent := sent st ++ [login] |})) /\
  (forall fuel' e, fst (authenticate' fuel' st) <> Rejected e).
Proof.
  intros login reply. split; [|split].
  - apply authenticate_failed_login.
  - intros code l Hup Hok Hne.
    apply (authenticateWith_accepted email password now upstream fuel st
             Hup Hok Hne).
  - intros fuel' e. apply authenticateWith_never_rejects.
Qed.

(** X5. Upstream errors are masked: an operation rejects only with the
    authentication failure or with its own fixed message, never with the
    axios error, its status or its body. *)
Theorem operations_reject_with_fixed_messages
    (fuel : nat) (op : Operation) (st : State) (e : JsError num) :
  fst (run' fuel op st) = Rejected e ->
  e = Error authenticationFailure \/ e = Error (failureMessage op).
Proof.
  destruct (run_shape fuel op) as (A & k & _ & Hshape). rewrite Hshape.
  unfold forget, bind at 1, bind at 1.
  pose proof (ensureAuthenticated_rejection email password now upstream
                fuel st) as Hauth.
  destruct (ensureAuthenticated' fuel st) as [[u|e'|] st1]; cbn [fst] in *.
  - unfold tryCatch.
    match goal with
    | |- fst (match (match ?m with _ => _ end) with _ => _ end) = _ -> _ =>
        destruct m as [[a|e''|] st2]
    end; cbn [fst throw ret]; try discriminate.
    intros H. injection H as <-. right. reflexivity.
  - intros H. injection H as <-. left. apply Hauth. reflexivity.
  - discriminate.
Qed.

(** X6. No retry and no backoff besides the 401 path: with a valid session, when
    the operation's request gets no answer, or a refused status other than
    401 (403, 404, 429, 5xx, ...), the operation rejects with its own message
    after that single request; the service is unchanged. *)
Theorem failed_request_is_not_retried
    (fuel : nat) (op : Operation) (st : State) :
  let sentRequest :=
    withDefaults (service st) (requestOf now (service st) op) in
  sessionValid now (service st) ->
  failsPlainly (upstream (List.length (sent st)) sentRequest) = true ->
  run' (S fuel) op st
  = (Rejected (Error (failureMessage op)), afterSending st sentRequest).
Proof.
  intros sentRequest Hv Hfail. apply isSessionValid_spec in Hv.
  destruct (run_shape (S fuel) op) as (A & k & _ & Hshape). rewrite Hshape.
  unfold forget, bind at 1, bind at 1.
  rewrite ensureAuthenticated_valid by exact Hv.
  unfold tryCatch, bind. fold sentRequest.
  destruct (upstream (List.length (sent st)) sentRequest) as [code d|] eqn:Hup;
    cbn [failsPlainly] in Hfail.
  - apply andb_true_iff in Hfail. destruct Hfail as [Hbad Hne].
    apply negb_true_iff in Hbad. apply negb_true_iff in Hne.
    erewrite request_refused;
      [| exact Hup | exact Hbad | rewrite Hne; reflexivity].
    reflexivity.
  - erewrite request_no_answer; [| exact Hup]. reflexivity.
Qed.


(** ** Every tracker request carries a Bearer header *)

Lemma withDefaults_carriesBearer (s : Service) (config : Request) :
  headerMatchesToken s ->
  truthyString (accessToken s) = true ->
  Authorization config = None \/ carriesBearer config ->
  carriesBearer (withDefaults s config).
Proof.
  intros Hh Htok [Hnone|(t & Hne & Ht)]; unfold carriesBearer, withDefaults;
    cbn [Authorization].
  - rewrite Hnone, Hh.
    apply truthyString_spec in Htok. destruct Htok as (t & Et & Hne).
    rewrite Et. exists t. split; [exact Hne | reflexivity].
  - rewrite Ht. exists t. split; [exact Hne | reflexivity].
Qed.

Lemma allAuthorized_afterSending (st : State) (r : Request) :
  allAuthorized st ->
  url r = "/auth/login" \/ carriesBearer r ->
  allAuthorized (afterSending st r).
Proof.
  intros Hall Hr r' Hin Hurl. cbn [afterSending sent] in Hin.
  apply in_app_or in Hin. destruct Hin as [Hin|[<-|[]]].
  - apply Hall; assumption.
  - destruct Hr as [Hr|Hr]; [contradiction | exact Hr].
Qed.

(** What [request] and [authenticate] keep: the default header matches the
    token, every request sent but the logins carried a Bearer header, and a
    token once held stays held. *)
Definition keeps (st st' : State) : Prop :=
  headerMatchesToken (service st') /\ allAuthorized st' /\
  (truthyString (accessToken (service st)) = true ->
   truthyString (accessToken (service st')) = true).

Lemma authenticateWith_keeps (post : Request -> Async num (Response num))
    (st : State) :
  keeps st (snd (post loginRequest' st)) ->
  keeps st (snd (authenticateWith email password now post st)) /\
  (fst (authenticateWith email password now post st) = Resolved true ->
   truthyString
     (accessToken (service (snd (authenticateWith email password now post
                                                  st)))) = true).
Proof.
  unfold authenticateWith, tryCatch, bind.
  destruct (post loginRequest' st) as [[response|e|] st']; cbn [snd fst];
    intros Hk; try (split; [exact Hk | discriminate]).
  destruct (data response) as [| |l| | |];
    try (split; [exact Hk | discriminate]).
  destruct (truthyString (Some (Raw.access_token l))) eqn:Htok;
    [|split; [exact Hk | discriminate]].
  cbn [snd fst setService ret service sent]. split.
  - destruct Hk as (_ & Hall & _). repeat split.
    + exact Hall.
    + intros _. exact Htok.
  - intros _. exact Htok.
Qed.

Lemma request_keeps (fuel : nat) :
  forall (config : Request) (st : State),
    headerMatchesToken (service st) ->
    allAuthorized st ->
    url config = "/auth/login" \/
    (truthyString (accessToken (service st)) = true /\
     (Authorization config = None \/ carriesBearer config)) ->
    keeps st (snd (request' fuel config st)).
Proof.
  induction fuel as [|fuel IH]; intros config st Hh Hall Hcfg.
  - cbn [request snd]. repeat split; [exact Hh | exact Hall | tauto].
  - cbn [request]. unfold tryCatch at 1, dispatch.
    set (c := withDefaults (service st) config).
    assert (Hc : url c = "/auth/login" \/ carriesBearer c).
    { destruct Hcfg as [Hurl|[Htok Hauth]].
      - left. exact Hurl.
      - right. apply withDefaults_carriesBearer; assumption. }
    pose proof (allAuthorized_afterSending Hall Hc) as Hall1.
    change {| service := service st; sent := sent st ++ [c] |}
      with (afterSending st c).
    assert (Hplain : keeps st (afterSending st c)).
    { repeat split; [exact Hh | exact Hall1 | tauto]. }
    assert (Hrej : forall response,
               keeps st
                 (snd (onRejected email password now (request' fuel)
                         (AxiosError response (Some c))
                         (afterSending st c)))).
    { intros response. unfold onRejected, bind at 1, getService.
      cbn [service afterSending].
      destruct (isUnauthorized (AxiosError response (Some c))
                && truthyString (accessToken (service st))) eqn:Hgate;
        [|exact Hplain].
      apply andb_true_iff in Hgate. destruct Hgate as [_ Htok].
      change {| service := service st; sent := sent st ++ [c] |}
        with (afterSending st c).
      assert (Hlogin : keeps (afterSending st c)
                         (snd (request' fuel loginRequest'
                                        (afterSending st c)))).
      { apply IH; [exact Hh | exact Hall1 | left; reflexivity]. }
      destruct (@authenticateWith_keeps (request' fuel) (afterSending st c)
                  Hlogin) as [(Hh2 & Hall2 & Htok2) _].
      unfold bind at 1.
      destruct (authenticateWith email password now (request' fuel)
                  (afterSending st c)) as [[b|e|] st2];
        cbn [snd] in *;
        try (repeat split; [exact Hh2 | exact Hall2 | intros _; auto]).
      cbn [errorConfig]. unfold bind, getService.
      specialize (Htok2 Htok).
      assert (Hretry : keeps st2
                (snd (request' fuel
                        (setAuthorization c
                           ("Bearer " ++ interpolate (accessToken (service st2))))
                        st2))).
      { apply IH; [exact Hh2 | exact Hall2 |].
        right. split; [exact Htok2|]. right.
        apply truthyString_spec in Htok2.
        destruct Htok2 as (t & Et & Hne). rewrite Et.
        exists t. split; [exact Hne | reflexivity]. }
      destruct Hretry as (Hh3 & Hall3 & Htok3).
      repeat split; [exact Hh3 | exact Hall3 | intros _; auto]. }
    destruct (upstream (List.length (sent st)) c) as [code d|].
    + destruct (validateStatus code); [exact Hplain | apply Hrej].
    + apply Hrej.
Qed.

Lemma run_keeps (fuel : nat) (op : Operation) (st : State) :
  headerMatchesToken (service st) ->
  allAuthorized st ->
  headerMatchesToken (service (snd (run' fuel op st))) /\
  allAuthorized (snd (run' fuel op st)).
Proof.
  intros Hh Hall.
  destruct (run_shape fuel op) as (A & k & Hk & Hshape). rewrite Hshape.
  assert (Hforget : forall (m : Async num A) st0,
             snd (forget m st0) = snd (m st0)).
  { intros m st0. unfold forget, bind.
    destruct (m st0) as [[a|e|] st']; reflexivity. }
  rewrite Hforget. unfold bind at 1 3.
  assert (Hauth : match ensureAuthenticated' fuel st with
                  | (Resolved _, st1) =>
                      headerMatchesToken (service st1) /\ allAuthorized st1 /\
                      truthyString (accessToken (service st1)) = true
                  | (_, st1) =>
                      headerMatchesToken (service st1) /\ allAuthorized st1
                  end).
  { unfold ensureAuthenticated, bind at 1, getService.
    destruct (isSessionValid now (service st)) eqn:Hv; cbn [negb].
    - cbn [ret]. repeat split; try assumption.
      unfold isSessionValid in Hv. apply andb_true_iff in Hv. tauto.
    - unfold bind, authenticate.
      assert (Hlogin : keeps st (snd (request' fuel loginRequest' st))).
      { apply request_keeps; [exact Hh | exact Hall | left; reflexivity]. }
      destruct (@authenticateWith_keeps (request' fuel) st Hlogin)
        as [(Hh2 & Hall2 & _) Htrue].
      destruct (authenticateWith email password now (request' fuel) st)
        as [[[|]|e|] st2]; cbn [snd fst negb throw ret] in *;
        repeat split; auto. }
  destruct (ensureAuthenticated' fuel st) as [[u|e|] st1];
    [|exact Hauth|exact Hauth].
  destruct Hauth as (Hh1 & Hall1 & Htok1).
  assert (Hreq : keeps st1
            (snd (request' fuel (requestOf now (service st1) op) st1))).
  { apply request_keeps; [exact Hh1 | exact Hall1 |].
    right. split; [exact Htok1|]. left. destruct op; reflexivity. }
  destruct Hreq as (Hh2 & Hall2 & _).
  unfold tryCatch, bind.
  destruct (request' fuel (requestOf now (service st1) op) st1)
    as [[r|e|] st2]; cbn [snd throw] in *; try (split; assumption).
  specialize (Hk r st2).
  destruct (k r st2) as [[a|e|] st3]; cbn [snd] in *; subst st3;
    split; assumption.
Qed.
End OperationProperties.

(** X8. From a new service, whatever upstream replies, whatever operations are
    called in whatever order and at whatever clock readings: every request
    sent, the logins apart, carried the Bearer header of a non-empty token,
    and the instance's default header stays the Bearer header of the stored
    token. *)
Theorem every_tracker_request_carries_a_token
    (num : Type) (JN : JsNumber num) (email password : string)
    (upstream : nat -> Request -> Reply num)
    (calls : list (N * nat * Operation)) :
  let st := runAll email password upstream calls
                   {| service := newService; sent := [] |} in
  allAuthorized st /\ headerMatchesToken (service st).
Proof.
  cbv zeta. unfold runAll.
  assert (G : forall st,
             headerMatchesToken (service st) -> allAuthorized st ->
             allAuthorized
               (fold_left
                  (fun st call =>
                     snd (run email password (fst (fst call)) upstream
                              (snd (fst call)) (snd call) st))
                  calls st) /\
             headerMatchesToken
               (service
                  (fold_left
                     (fun st call =>
                        snd (run email password (fst (fst call)) upstream
                                 (snd (fst call)) (snd call) st))
                     calls st))).
  { induction calls as [|[[now fuel] op] calls IH]; intros st Hh Hall.
    - split; assumption.
    - cbn [fold_left fst snd].
      destruct (@run_keeps num JN email password now upstream fuel op st
                          Hh Hall)
        as [Hh' Hall'].
      apply IH; assumption. }
  apply G.
  - reflexivity.
  - intros r [].
Qed.

Section OperationResults.
Context {num : Type} {JN : JsNumber num}.
Variable email password : string.
Variable now : N.
Variable upstream : nat -> Request -> Reply num.

Local Open Scope string_scope.
Local Open Scope list_scope.

Local Abbreviation request' := (request email password now upstream).
Local Abbreviation ensureAuthenticated' :=
  (ensureAuthenticated email password now upstream).
Local Abbreviation loginRequest' := (loginRequest email password).

(** X9. The session a login stores is valid, at the time of the login, exactly
    when [expires_in] is positive.  So after a login with a positive
    [expires_in] a second [ensureAuthenticated] at the same clock reading
    sends nothing; with [expires_in <= 0] the stored session is already
    expired. *)
Theorem login_session_valid_iff_expires_in_positive
    (fuel fuel' : nat) (st : State) (code : Z) (l : Raw.Login) :
  ~ sessionValid now (service st) ->
  upstream (List.length (sent st)) (withDefaults (service st) loginRequest')
  = Answer code (DLogin l) ->
  validateStatus code = true ->
  Raw.access_token l <> "" ->
  let st1 := snd (ensureAuthenticated' (S fuel) st) in
  service st1 = sessionOf now l /\
  (sessionValid now (service st1) <-> (0 < Raw.expires_in l)%Z) /\
  ((0 < Raw.expires_in l)%Z ->
   ensureAuthenticated' fuel' st1 = (Resolved tt, st1)).
Proof.
  intros Hnv Hup Hok Hne st1.
  assert (Hf : isSessionValid now (service st) = false).
  { destruct (isSessionValid now (service st)) eqn:E; [|reflexivity].
    apply isSessionValid_spec in E. contradiction. }
  assert (E1 : st1 = {| service := sessionOf now l;
                        sent := sent st
                                ++ [withDefaults (service st) loginRequest'] |}).
  { subst st1. unfold ensureAuthenticated, bind at 1, getService.
    rewrite Hf. cbn [negb]. unfold bind, authenticate.
    rewrite (authenticateWith_accepted email password now upstream fuel st
               Hup Hok Hne).
    reflexivity. }
  assert (Hiff : sessionValid now (service st1) <-> (0 < Raw.expires_in l)%Z).
  { rewrite E1. cbn [service]. unfold sessionValid, sessionOf.
    cbn [accessToken sessionExpiry]. split.
    - intros (t & e & _ & _ & Ee & Hlt). injection Ee as <-. lia.
    - intros Hpos. exists (Raw.access_token l).
      exists (Z.of_N now + Raw.expires_in l * 1000)%Z.
      repeat split; [exact Hne | lia]. }
  split; [rewrite E1; reflexivity|]. split; [exact Hiff|].
  intros Hpos. apply ensureAuthenticated_valid, isSessionValid_spec, Hiff, Hpos.
Qed.


(** X11. The three commands report success only for status 200 itself: with a
    valid session and an accepted reply of status [code], each resolves with
    [code = 200], so another accepted status (201, 202, 204, ...) gives
    [false]. *)
Theorem commands_succeed_on_status_200_only
    (fuel : nat) (trackerId : string) (active : bool) (st : State) :
  sessionValid now (service st) ->
  let accepted (op : Operation) (code : Z) :=
    exists d,
      upstream (List.length (sent st))
               (withDefaults (service st) (requestOf now (service st) op))
      = Answer code d /\ validateStatus code = true in
  let outcome (op : Operation) (code : Z) :=
    (Resolved (code =? 200)%Z,
     afterSending st
       (withDefaults (service st) (requestOf now (service st) op))) in
  (forall code,
     accepted (OpLiveTracking trackerId active) code ->
     toggleLiveTracking email password now upstream (S fuel) trackerId active
                        st
     = outcome (OpLiveTracking trackerId active) code) /\
  (forall code,
     accepted (OpLED trackerId) code ->
     triggerLED email password now upstream (S fuel) trackerId st
     = outcome (OpLED trackerId) code) /\
  (forall code,
     accepted (OpBuzzer trackerId) code ->
     triggerBuzzer email password now upstream (S fuel) trackerId st
     = outcome (OpBuzzer trackerId) code).
Proof.
  intros Hv accepted outcome. apply isSessionValid_spec in Hv.
  repeat split; intros code (d & Hup & Hok);
    unfold toggleLiveTracking, triggerLED, triggerBuzzer, bind at 1;
    rewrite ensureAuthenticated_valid by exact Hv;
    unfold tryCatch, bind;
    (erewrite request_accepted; [| exact Hup | exact Hok]);
    reflexivity.
Qed.

(** X12. [getGeofences] is all or nothing: with a valid session and an accepted
    list of fences, it resolves with one geofence per fence, in order, when
    every fence has a shape, and rejects with its failure message as soon as
    one fence has none. *)
Theorem geofences_all_or_nothing
    (fuel : nat) (trackerId : string) (st : State) (code : Z)
    (fences : list (Raw.Fence num)) :
  let sentRequest :=
    withDefaults (service st)
                 (requestOf now (service st) (OpGeofences trackerId)) in
  sessionValid now (service st) ->
  upstream (List.length (sent st)) sentRequest
  = Answer code (DGeofences fences) ->
  validateStatus code = true ->
  ((forall fence, In fence fences -> Raw.shape fence <> None) ->
   exists geofences,
     getGeofences email password now upstream (S fuel) trackerId st
     = (Resolved geofences, afterSending st sentRequest) /\
     map (fun g => Some g) geofences = map toGeofence fences /\
     List.length geofences = List.length fences) /\
  ((exists fence, In fence fences /\ Raw.shape fence = None) ->
   getGeofences email password now upstream (S fuel) trackerId st
   = (Rejected (Error "Failed to fetch geofences"),
      afterSending st sentRequest)).
Proof.
  intros sentRequest Hv Hup Hok. apply isSessionValid_spec in Hv.
  assert (Hrun : getGeofences email password now upstream (S fuel)
                              trackerId st
                 = match mapThrowing toGeofence fences with
                   | Some geofences =>
                       (Resolved geofences, afterSending st sentRequest)
                   | None =>
                       (Rejected (Error "Failed to fetch geofences"),
                        afterSending st sentRequest)
                   end).
  { unfold getGeofences, bind at 1.
    rewrite ensureAuthenticated_valid by exact Hv.
    unfold tryCatch, bind.
    erewrite request_accepted; [| exact Hup | exact Hok].
    cbn [data]. destruct (mapThrowing toGeofence fences); reflexivity. }
  rewrite Hrun. clear Hrun Hup. split.
  - intros Hall.
    assert (G : exists geofences,
               mapThrowing toGeofence fences = Some geofences /\
               map (fun g => Some g) geofences = map toGeofence fences).
    { induction fences as [|fence fences IH].
      - exists []. split; reflexivity.
      - destruct IH as (gs & E & Hm); [intros f Hf; apply Hall; now right|].
        assert (Hs : Raw.shape fence <> None) by (apply Hall; now left).
        cbn [mapThrowing map]. unfold toGeofence at 1 3.
        destruct (Raw.shape fence) as [shape|]; [|contradiction].
        rewrite E. cbn [option_map]. eexists. split; [reflexivity|].
        cbn [map]. rewrite Hm. reflexivity. }
    destruct G as (gs & E & Hm). rewrite E. exists gs.
    split; [reflexivity|]. split; [exact Hm|].
    rewrite <- (length_map (fun g => Some g)), Hm, length_map. reflexivity.
  - intros (fence & Hin & Hnone).
    assert (G : mapThrowing toGeofence fences = None).
    { induction fences as [|f fences IH]; [destruct Hin|].
      cbn [mapThrowing]. destruct Hin as [->|Hin].
      - unfold toGeofence. rewrite Hnone. reflexivity.
      - destruct (toGeofence f); [|reflexivity].
        rewrite IH by exact Hin. reflexivity. }
    rewrite G. reflexivity.
Qed.
End OperationResults.

(* ================================================================== *)
(** * Route handlers: properties *)

Section RouteProperties.
Context {num : Type} {JN : JsNumber num}.
Variable email password : string.
Variable now : N.
Variable upstream : nat -> Request -> Reply num.

Local Open Scope string_scope.
Local Open Scope list_scope.

Local Abbreviation loginRequest' := (loginRequest email password).
Local Abbreviation loginRoute' :=
  (loginTractiveRoute email password now upstream).

(** While a token is held and upstream answers 401 to everything, the
    instance's [request] does not settle: each 401 makes the interceptor log
    in, and the login is answered 401 in its turn. *)
Lemma request_unsettled_while_all_unauthorized (fuel : nat) :
  (forall n config, exists d, upstream n config = Answer 401 d) ->
  forall (config : Request) (st : State),
    truthyString (accessToken (service st)) = true ->
    fst (request email password now upstream fuel config st) = Pending.
Proof.
  intros Hall. induction fuel as [|fuel IH]; intros config st Htok.
  - reflexivity.
  - cbn [request]. unfold tryCatch at 1, dispatch.
    destruct (Hall (List.length (sent st)) (withDefaults (service st) config))
      as [d Hup].
    rewrite Hup.
    cbn [validateStatus Z.leb Z.ltb Z.compare Pos.compare Pos.compare_cont
         andb].
    unfold onRejected, bind at 1, getService.
    cbn [isUnauthorized status service Z.eqb Pos.eqb andb]. rewrite Htok.
    unfold bind at 1, authenticateWith, tryCatch, bind at 1.
    match goal with
    | |- context [request _ _ _ _ fuel loginRequest' ?st1] =>
        pose proof (IH loginRequest' st1 Htok) as Hp;
        destruct (request email password now upstream fuel loginRequest' st1)
          as [[r|e|] st2]
    end; cbn [fst] in Hp; try discriminate.
    reflexivity.
Qed.

(** X22. The login route never answers 500: [authenticate] never rejects, so
    the route's [catch] is never entered and whenever the route answers, it
    answers 200 or 401.  A login that gets no answer, a refused status (a 401
    while a token is held apart) or an accepted reply without a token is
    answered 401 "Invalid Tractive credentials", like a wrong password.  The
    case set apart is the one where the route does not answer: the service of
    the route keeps its token from one call to the next, and while it holds
    one and upstream answers 401 to every request, the interceptor logs in
    again on each 401 and the route's promise stays pending. *)
Theorem login_route_answers_200_or_401_or_not_at_all
    (fuel : nat) (st : State) :
  let login := withDefaults (service st) loginRequest' in
  (loginFails (truthyString (accessToken (service st)))
              (upstream (List.length (sent st)) login) = true ->
   loginRoute' (S fuel) st
   = (Resolved (failureResponse now 401 "Invalid Tractive credentials"),
      afterSending st login)) /\
  (forall fuel',
     match fst (loginRoute' fuel' st) with
     | Resolved response =>
         httpStatus response = 200%Z \/ httpStatus response = 401%Z
     | Rejected _ => False
     | Pending => True
     end) /\
  (truthyString (accessToken (service st)) = true ->
   (forall n config, exists d, upstream n config = Answer 401 d) ->
   forall fuel', fst (loginRoute' fuel' st) = Pending).
Proof.
  intros login. split; [|split].
  - intros Hfail. unfold loginTractiveRoute, tryCatch, bind.
    rewrite (authenticate_failed_login email password now upstream fuel st
               Hfail).
    reflexivity.
  - intros fuel'. unfold loginTractiveRoute, tryCatch, bind.
    pose proof (authenticateWith_never_rejects email password now
                  (request email password now upstream fuel') st) as Hnr.
    unfold authenticate.
    destruct (authenticateWith email password now
                (request email password now upstream fuel') st)
      as [[[|]|e|] st']; cbn [fst ret] in *.
    + left. reflexivity.
    + right. reflexivity.
    + exfalso. exact (Hnr e eq_refl).
    + exact I.
  - intros Htok Hall fuel'.
    pose proof (request_unsettled_while_all_unauthorized fuel' Hall
                  loginRequest' st Htok) as Hp.
    unfold loginTractiveRoute, authenticate, authenticateWith, tryCatch, bind.
    destruct (request email password now upstream fuel' loginRequest' st)
      as [[r|e|] st']; cbn [fst] in Hp; try discriminate.
    reflexivity.
Qed.

(** X23. The LED and buzzer routes, with a valid session.  An accepted upstream
    status is answered with HTTP 200 whatever it is, [success] telling
    whether it was 200 itself; a request that gets no answer or a refused
    status other than 401 is answered with HTTP 500 and the route's fixed
    message, after that single request. *)
Theorem command_routes_answer_200_or_500
    (fuel : nat) (id : string) (st : State) :
  sessionValid now (service st) ->
  let answers (route : Async num (HttpResponse CommandBody))
      (op : Operation) (text : string) (failure : string) :=
    let sentRequest :=
      withDefaults (service st) (requestOf now (service st) op) in
    let reply := upstream (List.length (sent st)) sentRequest in
    (forall code d,
       reply = Answer code d -> validateStatus code = true ->
       route st
       = (Resolved {| httpStatus := 200;
                      json := {| success := (code =? 200)%Z;
                                 data_ := Some {| command_message := text |};
                                 error := None;
                                 timestamp_ := now |} |},
          afterSending st sentRequest)) /\
    (failsPlainly reply = true ->
     route st
     = (Resolved (failureResponse now 500 failure),
        afterSending st sentRequest)) in
  answers (ledRoute email password now upstream (S fuel) id) (OpLED id)
          "LED command sent" "Failed to trigger LED" /\
  answers (buzzerRoute email password now upstream (S fuel) id) (OpBuzzer id)
          "Buzzer command sent" "Failed to trigger buzzer".
Proof.
  intros Hv answers. apply isSessionValid_spec in Hv. subst answers.
  cbv zeta. cbn [requestOf].
  split; split.
  - intros code d Hup Hok.
    unfold ledRoute, triggerLED, tryCatch, bind.
    rewrite ensureAuthenticated_valid by exact Hv.
    erewrite request_accepted; [| exact Hup | exact Hok]. reflexivity.
  - intros Hfail. unfold ledRoute, triggerLED, tryCatch, bind.
    rewrite ensureAuthenticated_valid by exact Hv.
    destruct (upstream _ _) as [code d|] eqn:Hup; cbn [failsPlainly] in Hfail.
    + apply andb_true_iff in Hfail. destruct Hfail as [Hbad Hne].
      apply negb_true_iff in Hbad. apply negb_true_iff in Hne.
      erewrite request_refused;
        [| exact Hup | exact Hbad | rewrite Hne; reflexivity].
      reflexivity.
    + erewrite request_no_answer; [| exact Hup]. reflexivity.
  - intros code d Hup Hok.
    unfold buzzerRoute, triggerBuzzer, tryCatch, bind.
    rewrite ensureAuthenticated_valid by exact Hv.
    erewrite request_accepted; [| exact Hup | exact Hok]. reflexivity.
  - intros Hfail. unfold buzzerRoute, triggerBuzzer, tryCatch, bind.
    rewrite ensureAuthenticated_valid by exact Hv.
    destruct (upstream _ _) as [code d|] eqn:Hup; cbn [failsPlainly] in Hfail.
    + apply andb_true_iff in Hfail. destruct Hfail as [Hbad Hne].
      apply negb_true_iff in Hbad. apply negb_true_iff in Hne.
      erewrite request_refused;
        [| exact Hup | exact Hbad | rewrite Hne; reflexivity].
      reflexivity.
    + erewrite request_no_answer; [| exact Hup]. reflexivity.
Qed.
End RouteProperties.

(* ================================================================== *)
(** * The mapping service client: properties *)

Section GoogleProperties.
Context {num : Type}.
Variable config : Google.Config.
Variable upstream : nat -> @Google.Request num -> @Google.Reply num.

Local Open Scope list_scope.

Local Ltac settle :=
  repeat match goal with
         | |- context [match ?x with _ => _ end] => destruct x
         end;
  cbn [fst snd Google.ret Google.throw].

Lemma get_sends_one (path : string) (params : Google.Params)
    (log : list Google.Request) :
  snd (Google.get upstream path params log)
  = log ++ [{| Google.path := path; Google.params := params |}].
Proof.
  unfold Google.get.
  destruct (upstream _ _) as [code data|]; [destruct (validateStatus code)|];
    reflexivity.
Qed.

(** A method of the shape
    [if (off) return nothing; try { get; k } catch { return nothing }]. *)
Lemma single_request_bestEffort {A : Type} (off : bool) (nothing : A)
    (path : string) (params : Google.Params)
    (k : Google.Data -> Google.Async A) :
  (forall data log, snd (k data log) = log) ->
  bestEffort
    (if off then Google.ret nothing
     else Google.tryCatch (Google.bind (Google.get upstream path params) k)
                          (fun _ => Google.ret nothing))
    off nothing 1.
Proof.
  intros Hk log. destruct off.
  - split; [eexists; reflexivity|]. split; [reflexivity|].
    exists []. split; [now rewrite app_nil_r | simpl; lia].
  - pose proof (get_sends_one path params log) as Hsent.
    unfold Google.tryCatch, Google.bind.
    destruct (Google.get upstream path params log) as [[data|e] log'];
      cbn [snd] in Hsent; subst log'.
    + specialize (Hk data (log ++ [{| Google.path := path;
                                      Google.params := params |}])).
      destruct (k data _) as [[a|e] log'']; cbn [snd] in Hk; subst log'';
        (split; [eexists; reflexivity|]); (split; [discriminate|]);
        eexists; (split; [reflexivity | simpl; lia]).
    + split; [eexists; reflexivity|]. split; [discriminate|].
      eexists. split; [reflexivity | simpl; lia].
Qed.

Lemma nearbyLoop_sent (lat lng radius : num) (types : list string) :
  forall places log,
    exists new,
      snd (Google.nearbyLoop config upstream lat lng radius types places log)
      = log ++ new /\
      (List.length new <= List.length types)%nat.
Proof.
  induction types as [|type rest IH]; intros places log.
  - exists []. split; [cbn; now rewrite app_nil_r | simpl; lia].
  - cbn [Google.nearbyLoop]. unfold Google.bind.
    match goal with
    | |- context [Google.get upstream ?p ?q log] =>
        pose proof (get_sends_one p q log) as Hsent;
        destruct (Google.get upstream p q log) as [[data|e] log']
    end; cbn [snd] in Hsent; subst log'.
    + assert (Hnext : forall places',
                 exists new,
                   snd (Google.nearbyLoop config upstream lat lng radius rest
                          places' (log ++ [nearbyRequest config lat lng radius
                                                         type]))
                   = log ++ new /\
                   (List.length new <= S (List.length rest))%nat).
      { intros places'.
        destruct (IH places' (log ++ [nearbyRequest config lat lng radius
                                                    type]))
          as (new & Hnew & Hlen).
        exists ([nearbyRequest config lat lng radius type] ++ new).
        rewrite Hnew, <- app_assoc. split; [reflexivity|].
        rewrite length_app. simpl. lia. }
      assert (Hstop : exists new,
                 log ++ [nearbyRequest config lat lng radius type]
                 = log ++ new /\
                 (List.length new <= S (List.length rest))%nat).
      { eexists. split; [reflexivity | simpl; lia]. }
      unfold nearbyRequest in *. cbn [List.length].
      destruct data as [| | | |results|]; try apply Hnext; try exact Hstop.
      destruct (mapThrowing Google.toPlace results);
        [apply Hnext | exact Hstop].
    + eexists. split; [reflexivity | simpl; lia].
Qed.

(** X19. The enrichment calls are best effort: none of them ever rejects; with
    its switch off or an empty API key each resolves at once ([null] or an
    empty list) without sending anything; and each sends at most one request,
    [findNearbyPlaces] at most one per type. *)
Theorem enrichment_calls_are_best_effort
    (lat lng radius : num) (origins destinations locations : list (LatLng num))
    (origin destination : LatLng num) (mode : string) (types : list string) :
  bestEffort (Google.reverseGeocode config upstream lat lng)
             (Google.switchedOff config (Google.enableGeocoding config))
             None 1 /\
  bestEffort (Google.getDistanceMatrix config upstream origins destinations
                                       mode)
             (Google.switchedOff config (Google.enableDirections config))
             [] 1 /\
  bestEffort (Google.findNearbyPlaces config upstream lat lng types radius)
             (Google.switchedOff config (Google.enablePlaces config))
             [] (List.length types) /\
  bestEffort (Google.getElevation config upstream locations)
             (Google.switchedOff config (Google.enableElevation config))
             [] 1 /\
  bestEffort (Google.getDirections config upstream origin destination mode)
             (Google.switchedOff config (Google.enableDirections config))
             None 1.
Proof.
  split; [|split; [|split; [|split]]].
  - unfold Google.reverseGeocode. apply single_request_bestEffort.
    intros data log. settle; reflexivity.
  - unfold Google.getDistanceMatrix. apply single_request_bestEffort.
    intros data log. settle; reflexivity.
  - intros log. unfold Google.findNearbyPlaces.
    destruct (Google.switchedOff config (Google.enablePlaces config)).
    + split; [eexists; reflexivity|]. split; [reflexivity|].
      exists []. split; [now rewrite app_nil_r | simpl; lia].
    + destruct (nearbyLoop_sent lat lng radius types [] log)
        as (new & Hnew & Hlen).
      unfold Google.tryCatch.
      destruct (Google.nearbyLoop config upstream lat lng radius types [] log)
        as [[places|e] log']; cbn [snd] in Hnew; subst log';
        (split; [eexists; reflexivity|]); (split; [discriminate|]);
        exists new; (split; [reflexivity | exact Hlen]).
  - unfold Google.getElevation. apply single_request_bestEffort.
    intros data log. settle; reflexivity.
  - unfold Google.getDirections. apply single_request_bestEffort.
    intros data log. settle; reflexivity.
Qed.

Lemma mapThrowing_toPlace (results : list (@Google.RawPlace num)) :
  mapThrowing Google.toPlace results
  = if existsb (fun place =>
                  match Google.geometry place with
                  | Some _ => false
                  | None => true
                  end) results
    then None else Some (placesOf results).
Proof.
  induction results as [|place results IH]; [reflexivity|].
  cbn [mapThrowing existsb]. unfold placesOf in *. cbn [flat_map].
  remember (Google.toPlace place) as converted eqn:Hc.
  unfold Google.toPlace in Hc.
  destruct (Google.geometry place) as [location|]; subst converted;
    [|reflexivity].
  cbn [orb]. rewrite IH.
  destruct (existsb _ results); reflexivity.
Qed.

(** One turn of the loop: the query fails and the loop throws, or it does
    not and the loop goes on with the places of this reply added. *)
Lemma nearbyLoop_step (lat lng radius : num) (type : string)
    (rest : list string) (places : list Google.Place)
    (log : list Google.Request) :
  let request0 := nearbyRequest config lat lng radius type in
  let reply := upstream (List.length log) request0 in
  (placesQueryFails reply = true /\
   exists e,
     Google.nearbyLoop config upstream lat lng radius (type :: rest) places log
     = (Google.Rejected e, log ++ [request0])) \/
  (placesQueryFails reply = false /\
   Google.nearbyLoop config upstream lat lng radius (type :: rest) places log
   = Google.nearbyLoop config upstream lat lng radius rest
       (places ++ match reply with
                  | Google.Answer _ (Google.Places results) => placesOf results
                  | _ => []
                  end)
       (log ++ [request0])).
Proof.
  intros request0 reply. subst reply. cbn [Google.nearbyLoop].
  unfold Google.bind, Google.get.
  change {| Google.path := "/place/nearbysearch/json";
            Google.params :=
              Google.NearbyParams {| lat := lat; lng := lng |} radius type
                                  (Google.apiKey config) |}
    with request0.
  destruct (upstream (List.length log) request0) as [code data|];
    cbn [placesQueryFails].
  - destruct (validateStatus code); cbn [negb orb].
    + destruct data as [| | | |results|].
      * left. split; [reflexivity | eexists; reflexivity].
      * right. split; [reflexivity | now rewrite app_nil_r].
      * right. split; [reflexivity | now rewrite app_nil_r].
      * right. split; [reflexivity | now rewrite app_nil_r].
      * rewrite mapThrowing_toPlace.
        destruct (existsb _ results).
        -- left. split; [reflexivity | eexists; reflexivity].
        -- right. split; reflexivity.
      * right. split; [reflexivity | now rewrite app_nil_r].
    + left. split; [reflexivity | eexists; reflexivity].
  - left. split; [reflexivity | eexists; reflexivity].
Qed.

Lemma nearbyLoop_failure (lat lng radius : num) (types : list string) :
  forall places log n request,
    (List.length log <= n)%nat ->
    nth_error
      (snd (Google.nearbyLoop config upstream lat lng radius types places log))
      n = Some request ->
    placesQueryFails (upstream n request) = true ->
    exists e,
      fst (Google.nearbyLoop config upstream lat lng radius types places log)
      = Google.Rejected e.
Proof.
  induction types as [|type rest IH]; intros places log n request Hn Hnth Hfail.
  - cbn in Hnth. assert (n < List.length log)%nat; [|lia].
    apply nth_error_Some. congruence.
  - destruct (nearbyLoop_step lat lng radius type rest places log)
      as [(_ & e & E)|(Hok & E)]; rewrite E in *.
    + exists e. reflexivity.
    + destruct (Nat.eq_dec n (List.length log)) as [->|Hne].
      * exfalso.
        match type of Hnth with
        | nth_error (snd (Google.nearbyLoop _ _ _ _ _ _ ?p ?l)) _ = _ =>
            destruct (nearbyLoop_sent lat lng radius rest p l)
              as (new & Hnew & _)
        end.
        rewrite Hnew, <- app_assoc in Hnth.
        rewrite nth_error_app2 in Hnth by lia.
        rewrite Nat.sub_diag in Hnth. cbn in Hnth.
        injection Hnth as <-. congruence.
      * eapply IH; [|exact Hnth|exact Hfail].
        rewrite length_app. simpl. lia.
Qed.

(** X20. [findNearbyPlaces] keeps nothing when one query fails: if any of the
    requests it sent got no answer, a refused status, no body, or a place
    without a location, it resolves with the empty list, whatever the other
    queries returned. *)
Theorem nearby_places_one_failure_discards_all
    (lat lng radius : num) (types : list string)
    (log : list Google.Request) (n : nat) (request : Google.Request) :
  Google.switchedOff config (Google.enablePlaces config) = false ->
  (List.length log <= n)%nat ->
  nth_error
    (snd (Google.findNearbyPlaces config upstream lat lng types radius log)) n
  = Some request ->
  placesQueryFails (upstream n request) = true ->
  fst (Google.findNearbyPlaces config upstream lat lng types radius log)
  = Google.Resolved [].
Proof.
  unfold Google.findNearbyPlaces. intros -> Hn Hnth Hfail.
  unfold Google.tryCatch in *.
  pose proof (@nearbyLoop_failure lat lng radius types [] log n request Hn)
    as Hloop.
  destruct (Google.nearbyLoop config upstream lat lng radius types [] log)
    as [[places|e] log']; cbn [fst snd Google.ret] in *.
  - destruct (Hloop Hnth Hfail) as [e He]. discriminate He.
  - reflexivity.
Qed.

(** X21. When every query succeeds, [findNearbyPlaces] returns the places of the
    replies one after the other, in the order of the types (a place returned
    for two types is listed twice), after one request per type. *)
Theorem nearby_places_concatenates_by_type
    (lat lng radius : num) (queries : list (string * list Google.RawPlace))
    (log : list Google.Request) :
  Google.switchedOff config (Google.enablePlaces config) = false ->
  (forall i type results,
     nth_error queries i = Some (type, results) ->
     exists code,
       upstream (List.length log + i)
                (nearbyRequest config lat lng radius type)
       = Google.Answer code (Google.Places results) /\
       validateStatus code = true /\
       forall place, In place results -> Google.geometry place <> None) ->
  Google.findNearbyPlaces config upstream lat lng (map fst queries) radius log
  = (Google.Resolved (flat_map (fun q => placesOf (snd q)) queries),
     log ++ map (nearbyRequest config lat lng radius) (map fst queries)).
Proof.
  unfold Google.findNearbyPlaces. intros -> Hall. unfold Google.tryCatch.
  assert (G : forall places log',
             (forall i type results,
                nth_error queries i = Some (type, results) ->
                exists code,
                  upstream (List.length log' + i)
                           (nearbyRequest config lat lng radius type)
                  = Google.Answer code (Google.Places results) /\
                  validateStatus code = true /\
                  forall place,
                    In place results -> Google.geometry place <> None) ->
             Google.nearbyLoop config upstream lat lng radius
                               (map fst queries) places log'
             = (Google.Resolved
                  (places ++ flat_map (fun q => placesOf (snd q)) queries),
                log' ++ map (nearbyRequest config lat lng radius)
                            (map fst queries))).
  { clear Hall log.
    induction queries as [|[type results] queries IH]; intros places log Hall.
    - cbn. now rewrite !app_nil_r.
    - cbn [map fst snd flat_map].
      destruct (Hall 0%nat type results eq_refl) as (code & Hup & Hok & Hgeo).
      rewrite Nat.add_0_r in Hup.
      destruct (nearbyLoop_step lat lng radius type (map fst queries) places
                  log) as [(Hfail & _)|(_ & E)].
      + exfalso. cbv zeta in Hfail. rewrite Hup in Hfail.
        cbn [placesQueryFails] in Hfail. rewrite Hok in Hfail.
        cbn [negb orb] in Hfail.
        apply existsb_exists in Hfail. destruct Hfail as (place & Hin & Hp).
        specialize (Hgeo place Hin).
        destruct (Google.geometry place); [discriminate | contradiction].
      + rewrite E. cbv zeta. rewrite Hup. rewrite IH.
        * rewrite <- !app_assoc. reflexivity.
        * intros i type' results' Hnth.
          destruct (Hall (S i) type' results' Hnth) as (code' & Hup' & H').
          exists code'. split; [|exact H'].
          rewrite length_app. cbn [List.length].
          replace (List.length log + 1 + i)%nat
            with (List.length log + S i)%nat by lia.
          exact Hup'. }
  rewrite (G [] log Hall). reflexivity.
Qed.
End GoogleProperties.

(* ================================================================== *)
(** * The further properties on concrete runs *)

Section MoreScenarios.
Local Open Scope string_scope.
Local Open Scope list_scope.

Local Abbreviation F := PrimFloat.float.

Lemma freshState_not_valid : ~ sessionValid 1000 (service freshState).
Proof. intros (t & e & H & _). discriminate H. Defined.

Lemma operations_reject_with_fixed_messages_witness :
  fst (run "e" "p" 1000 refusesAll 1 OpTrackers freshState)
  = Rejected (Error authenticationFailure) /\
  (@Error F authenticationFailure = Error authenticationFailure \/
   @Error F authenticationFailure = Error (failureMessage OpTrackers)).
Proof.
  split.
  - reflexivity.
  - apply (@operations_reject_with_fixed_messages F float_JsNumber
             "e" "p" 1000%N refusesAll 1 OpTrackers freshState).
    reflexivity.
Defined.

Lemma failed_request_is_not_retried_witness :
  sessionValid 1000 (service heldState) /\
  run "e" "p" 1000 serverError 1 (OpLED "T1") heldState
  = (Rejected (Error "Failed to trigger LED"),
     afterSending heldState
       (withDefaults heldService (post "/tracker/T1/led" NoBody))).
Proof.
  split.
  - exact heldService_valid.
  - apply (@failed_request_is_not_retried F float_JsNumber
             "e" "p" 1000%N serverError 0 (OpLED "T1") heldState
             heldService_valid).
    reflexivity.
Defined.


Lemma login_session_witness :
  let st1 := snd (ensureAuthenticated "e" "p" 1000 alwaysUnauthorized 1
                                      freshState) in
  ~ sessionValid 1000 (service freshState) /\
  sessionValid 1000 (service st1) /\
  ensureAuthenticated "e" "p" 1000 alwaysUnauthorized 0 st1
  = (Resolved tt, st1).
Proof.
  cbv zeta.
  destruct (@login_session_valid_iff_expires_in_positive F
              "e" "p" 1000%N alwaysUnauthorized 0 0 freshState 200%Z
              {| Raw.access_token := "tok2"; Raw.user_id := "u1";
                 Raw.expires_in := 3600 |}
              freshState_not_valid eq_refl eq_refl)
    as (_ & Hiff & Hagain).
  - discriminate.
  - split; [exact freshState_not_valid|]. split.
    + apply Hiff. reflexivity.
    + apply Hagain. reflexivity.
Defined.


Lemma commands_witness :
  sessionValid 1000 (service heldState) /\
  fst (triggerLED "e" "p" 1000 noContent 1 "T1" heldState)
  = @Resolved F _ false.
Proof.
  split.
  - exact heldService_valid.
  - rewrite (proj1 (proj2 (@commands_succeed_on_status_200_only F
                             "e" "p" 1000%N noContent 0 "T1" true heldState
                             heldService_valid))
                   204%Z (ex_intro _ DNull (conj eq_refl eq_refl))).
    reflexivity.
Defined.

Lemma geofences_witness :
  sessionValid 1000 (service heldState) /\
  fst (getGeofences "e" "p" 1000 brokenFencesUpstream 1 "T1" heldState)
  = @Rejected F _ (Error "Failed to fetch geofences").
Proof.
  split.
  - exact heldService_valid.
  - rewrite (proj2 (@geofences_all_or_nothing F
                      "e" "p" 1000%N brokenFencesUpstream 0 "T1" heldState
                      200%Z [circleFence; shapelessFence]
                      heldService_valid eq_refl eq_refl)
                   (ex_intro _ shapelessFence
                             (conj (or_intror (or_introl eq_refl))
                                   eq_refl))).
    reflexivity.
Defined.

Lemma nearby_failure_witness :
  Google.switchedOff allOn (Google.enablePlaces allOn) = false /\
  fst (Google.findNearbyPlaces allOn unreachable (lit 48) (lit 16)
                               ["park"; "pet_store"] (lit 2000) [])
  = Google.Resolved [].
Proof.
  split.
  - reflexivity.
  - apply (@nearby_places_one_failure_discards_all F allOn unreachable
             (lit 48) (lit 16) (lit 2000) ["park"; "pet_store"] [] 0%nat
             (nearbyRequest allOn (lit 48) (lit 16) (lit 2000) "park")
             eq_refl (le_n 0) eq_refl eq_refl).
Defined.

Lemma nearby_concatenation_witness :
  Google.switchedOff allOn (Google.enablePlaces allOn) = false /\
  List.length
    match fst (Google.findNearbyPlaces allOn dogParkEverywhere (lit 48)
                 (lit 16) ["park"; "pet_store"] (lit 2000) []) with
    | Google.Resolved places => places
    | Google.Rejected _ => []
    end
  = 2%nat.
Proof.
  split.
  - reflexivity.
  - rewrite (@nearby_places_concatenates_by_type F allOn dogParkEverywhere
               (lit 48) (lit 16) (lit 2000)
               [("park", [dogPark]); ("pet_store", [dogPark])] [] eq_refl).
    + reflexivity.
    + intros i type results Hnth. exists 200%Z.
      destruct i as [|[|i]]; cbn in Hnth;
        try (injection Hnth as <- <-;
             split; [reflexivity|]; split; [reflexivity|];
             intros place [<-|[]]; discriminate).
      destruct i; discriminate Hnth.
Defined.

Lemma login_route_witness :
  truthyString (accessToken (service heldState)) = true /\
  fst (loginTractiveRoute "e" "p" 1000 refusesAll 5 heldState)
  = @Pending F _.
Proof.
  split.
  - reflexivity.
  - apply (proj2 (proj2 (@login_route_answers_200_or_401_or_not_at_all
                           F "e" "p" 1000%N refusesAll 0 heldState))
                 eq_refl).
    intros n config. exists DNull. reflexivity.
Defined.

Lemma command_routes_witness :
  sessionValid 1000 (service heldState) /\
  fst (ledRoute "e" "p" 1000 noContent 1 "T1" heldState)
  = @Resolved F _
      {| httpStatus := 200;
         json := {| success := false;
                    data_ := Some {| command_message := "LED command sent" |};
                    error := None;
                    timestamp_ := 1000 |} |}.
Proof.
  split.
  - exact heldService_valid.
  - rewrite (proj1 (proj1 (@command_routes_answer_200_or_500 F
                             "e" "p" 1000%N noContent 0 "T1" heldState
                             heldService_valid))
                   204%Z DNull eq_refl eq_refl).
    reflexivity.
Defined.
End MoreScenarios.

(* ================================================================== *)
(** * Trail analytics in binary64: a haversine rounded above 1 *)

Section Binary64.
Local Abbreviation F := PrimFloat.float.

Lemma is_nan_Prim2SF (x : F) :
  PrimFloat.is_nan x = true <-> FloatOps.Prim2SF x = SpecFloat.S754_nan.
Proof.
  unfold PrimFloat.is_nan. rewrite FloatAxioms.eqb_spec.
  unfold SpecFloat.SFeqb.
  destruct (FloatOps.Prim2SF x) as [s|s| |s m e]; cbn [SpecFloat.SFcompare].
  - split; discriminate.
  - destruct s; split; discriminate.
  - split; reflexivity.
  - rewrite Z.compare_refl.
    change (PosDef.Pos.compare_cont Eq m m) with (Pos.compare m m).
    rewrite Pos.compare_refl. destruct s; split; discriminate.
Qed.

Lemma nan_add_l (x y : F) :
  PrimFloat.is_nan x = true -> PrimFloat.is_nan (PrimFloat.add x y) = true.
Proof.
  rewrite !is_nan_Prim2SF, FloatAxioms.add_spec. intros ->. reflexivity.
Qed.

Lemma nan_add_r (x y : F) :
  PrimFloat.is_nan y = true -> PrimFloat.is_nan (PrimFloat.add x y) = true.
Proof.
  rewrite !is_nan_Prim2SF, FloatAxioms.add_spec. intros ->.
  destruct (FloatOps.Prim2SF x); reflexivity.
Qed.

Lemma nan_mul_r (x y : F) :
  PrimFloat.is_nan y = true -> PrimFloat.is_nan (PrimFloat.mul x y) = true.
Proof.
  rewrite !is_nan_Prim2SF, FloatAxioms.mul_spec. intros ->.
  destruct (FloatOps.Prim2SF x); reflexivity.
Qed.

Lemma nan_div_l (x y : F) :
  PrimFloat.is_nan x = true -> PrimFloat.is_nan (PrimFloat.div x y) = true.
Proof.
  rewrite !is_nan_Prim2SF, FloatAxioms.div_spec. intros ->. reflexivity.
Qed.

Lemma nan_not_positive (x : F) :
  PrimFloat.is_nan x = true -> PrimFloat.ltb PrimFloat.zero x = false.
Proof.
  rewrite is_nan_Prim2SF, FloatAxioms.ltb_spec. intros ->. reflexivity.
Qed.

(** The square root of binary64 obeys the rule. *)
Lemma sqrt_of_negative (x : F) :
  PrimFloat.ltb x PrimFloat.zero = true ->
  PrimFloat.is_nan (PrimFloat.sqrt x) = true.
Proof.
  rewrite is_nan_Prim2SF, FloatAxioms.ltb_spec, FloatAxioms.sqrt_spec.
  change (FloatOps.Prim2SF PrimFloat.zero) with (SpecFloat.S754_zero false).
  unfold SpecFloat.SFltb.
  destruct (FloatOps.Prim2SF x) as [s|s| |s m e];
    cbn [SpecFloat.SFcompare]; try discriminate;
    destruct s; try discriminate; reflexivity.
Qed.

Variable JM : JsMath F.
Hypothesis rules : nanRules JM.

Lemma haversine_nan (lat1 lng1 lat2 lng2 : F) :
  PrimFloat.ltb (sub (lit 1) (haversineTerm lat1 lng1 lat2 lng2)) (lit 0)
  = true ->
  PrimFloat.is_nan (calculateHaversineDistance lat1 lng1 lat2 lng2) = true.
Proof.
  intros Hneg. destruct rules as [Hsqrt Hatan2].
  change (calculateHaversineDistance lat1 lng1 lat2 lng2)
    with (PrimFloat.mul (lit 6371000)
            (PrimFloat.mul (lit 2)
               (Math_atan2
                  (Math_sqrt (haversineTerm lat1 lng1 lat2 lng2))
                  (Math_sqrt
                     (sub (lit 1) (haversineTerm lat1 lng1 lat2 lng2)))))).
  apply nan_mul_r, nan_mul_r, Hatan2.
  rewrite (Hsqrt _ Hneg). apply orb_true_r.
Qed.

Lemma fold_addLeg_nan (pairs : list (Position F * Position F)) :
  forall total,
    PrimFloat.is_nan total = true \/
    (exists pq,
       In pq pairs /\
       PrimFloat.is_nan
         (calculateHaversineDistance (latitude (fst pq)) (longitude (fst pq))
                                     (latitude (snd pq)) (longitude (snd pq)))
       = true) ->
    PrimFloat.is_nan (fold_left addLeg pairs total) = true.
Proof.
  induction pairs as [|pq pairs IH]; intros total H; cbn [fold_left].
  - destruct H as [H|(pq & [] & _)]. exact H.
  - apply IH. destruct H as [H|(pq' & [<-|Hin] & Hnan)].
    + left. apply nan_add_l. exact H.
    + left. apply nan_add_r. exact Hnan.
    + right. exists pq'. split; assumption.
Qed.
End Binary64.

(** X24. In binary64 the haversine [a] is not clamped to [0, 1].  Whatever
    [Math] is, as long as it obeys the NaN rules of ECMAScript: when for two
    consecutive positions [1 - a] comes out negative ([a] has rounded above
    1, which happens for nearly antipodal points), the distance between them
    is NaN, and so is the [distance] of the whole trail; [avgGrade] is then
    0, and [avgSpeed] is NaN when the duration is positive. *)
Theorem haversine_rounded_above_one_gives_nan
    (JM : JsMath PrimFloat.float) (getTime : string -> PrimFloat.float)
    (positions : list (Position PrimFloat.float))
    (elevations : option (list (ElevationPoint PrimFloat.float)))
    (p q : Position PrimFloat.float) :
  nanRules JM ->
  In (p, q) (consecutivePairs positions) ->
  PrimFloat.ltb
    (sub (lit 1)
         (haversineTerm (latitude p) (longitude p) (latitude q) (longitude q)))
    (lit 0) = true ->
  PrimFloat.is_nan
    (calculateHaversineDistance (latitude p) (longitude p)
                                (latitude q) (longitude q)) = true /\
  exists stats,
    calculateTrailStats getTime positions elevations = Some stats /\
    PrimFloat.is_nan (distance stats) = true /\
    avgGrade stats = lit 0 /\
    (gt (duration stats) (lit 0) = true ->
     PrimFloat.is_nan (avgSpeed stats) = true).
Proof.
  intros Hrules Hin Hneg.
  pose proof (haversine_nan Hrules Hneg) as Hleg.
  split; [exact Hleg|].
  assert (Hlen : (2 <= List.length positions)%nat).
  { destruct positions as [|a [|b rest]]; [destruct Hin | destruct Hin |].
    simpl. lia. }
  destruct (calculateTrailStats_long getTime positions elevations Hlen)
    as (first & last & _ & _ & E).
  cbv zeta in E. eexists. split; [exact E|].
  cbn [distance avgGrade avgSpeed duration].
  assert (Hnan : PrimFloat.is_nan
                   (fold_left addLeg (consecutivePairs positions) (lit 0))
                 = true).
  { apply fold_addLeg_nan. right. exists (p, q). split; [exact Hin|].
    exact Hleg. }
  split; [exact Hnan|]. split.
  - change (gt (fold_left addLeg (consecutivePairs positions) (lit 0)) (lit 0))
      with (PrimFloat.ltb PrimFloat.zero
              (fold_left addLeg (consecutivePairs positions) (lit 0))).
    rewrite (nan_not_positive _ Hnan). reflexivity.
  - intros ->. apply nan_div_l. exact Hnan.
Qed.

Lemma tableMath_nanRules : nanRules tableMath.
Proof.
  split.
  - intros x. apply sqrt_of_negative.
  - intros y x _. reflexivity.
Defined.

Lemma haversine_rounded_above_one_witness :
  PrimFloat.ltb
    (sub (lit 1)
         (@haversineTerm _ _ tableMath Binary64Values.north (lit 0)
                         Binary64Values.south (lit 180)))
    (lit 0) = true /\
  exists stats,
    @calculateTrailStats _ _ tableMath (fun _ => lit 0) nearAntipodes None
    = Some stats /\
    PrimFloat.is_nan (distance stats) = true /\
    avgGrade stats = lit 0.
Proof.
  assert (Hneg : PrimFloat.ltb
            (sub (lit 1)
                 (@haversineTerm _ _ tableMath Binary64Values.north (lit 0)
                                 Binary64Values.south (lit 180)))
            (lit 0) = true) by (vm_compute; reflexivity).
  split; [exact Hneg|].
  destruct (@haversine_rounded_above_one_gives_nan tableMath
              (fun _ => lit 0) nearAntipodes None
              (positionAt "2024-01-01T00:00:00Z" Binary64Values.north (lit 0))
              (positionAt "2024-01-01T00:01:00Z" Binary64Values.south
                          (lit 180))
              tableMath_nanRules (or_introl eq_refl) Hneg)
    as (_ & stats & E & Hnan & Hgrade & _).
  exists stats. split; [exact E|]. split; [exact Hnan | exact Hgrade].
Defined.
